(** * CSV ingestion of the slide-outline editor (src/App.tsx)

    A shallow embedding of [parseCSV] and of the [reader.onload] callback
    installed by [handleCsvUpload], together with the properties of the
    delimited-text parser stated in the specification.

    JavaScript strings are sequences of UTF-16 code units; they are modelled
    as lists of code units, so that [text[i]], [text.length] and [+=] are
    list head, length and append. *)

From Stdlib Require Import String Ascii Bool NArith ZArith Lia List.
From Stdlib Require DecimalNat DecimalFacts Finite.
Import ListNotations.


(** ** The fragment of the JavaScript runtime used by the ingestion code *)

Module JS.

Definition codeUnit := N.
Definition JSString := list codeUnit.

(** An ASCII literal of the source as code units. *)
Fixpoint lit (s : string) : JSString :=
  match s with
  | EmptyString => []
  | String a s' => N_of_ascii a :: lit s'
  end.

Definition dquote : codeUnit := 34%N.   (* the quote character, U+0022 *)
Definition comma : codeUnit := 44%N.    (* the comma, U+002C *)
Definition CR : codeUnit := 13%N.       (* carriage return, \r *)
Definition LF : codeUnit := 10%N.       (* line feed, \n *)

(** ToBoolean on a string: the empty string is the only falsy one. *)
Definition truthy (s : JSString) : bool :=
  match s with [] => false | _ :: _ => true end.

Fixpoint str_eqb (a b : JSString) : bool :=
  match a, b with
  | [], [] => true
  | x :: a', y :: b' => (x =? y)%N && str_eqb a' b'
  | _, _ => false
  end.

(** [isPrefix p s]: the code units of [p] are the first ones of [s]. *)
Fixpoint isPrefix (p s : JSString) : bool :=
  match p, s with
  | [], _ => true
  | _ :: _, [] => false
  | x :: p', y :: s' => (x =? y)%N && isPrefix p' s'
  end.

(** String.prototype.includes(searchString), position 0. *)
Fixpoint includes (s search : JSString) : bool :=
  isPrefix search s ||
  match s with
  | [] => false
  | _ :: s' => includes s' search
  end.

(** WhiteSpace and LineTerminator code points of ECMAScript, the set
    stripped by String.prototype.trim and skipped by parseInt. *)
Definition isWhiteSpace (c : codeUnit) : bool :=
  ((c =? 9) || (c =? 10) || (c =? 11) || (c =? 12) || (c =? 13) ||
   (c =? 32) || (c =? 160) || (c =? 5760) ||
   ((8192 <=? c) && (c <=? 8202)) ||
   (c =? 8232) || (c =? 8233) || (c =? 8239) || (c =? 8287) ||
   (c =? 12288) || (c =? 65279))%N.

Fixpoint trimStart (s : JSString) : JSString :=
  match s with
  | [] => []
  | c :: s' => if isWhiteSpace c then trimStart s' else s
  end.

Definition trimEnd (s : JSString) : JSString :=
  rev (trimStart (rev s)).

(** String.prototype.trim *)
Definition trim (s : JSString) : JSString := trimEnd (trimStart s).

(** *** Numbers

    Every number the ingestion code handles is NaN, an infinity or an
    integer-valued double; [Num z] is the double whose value is the
    integer [z] (both zeros are [Num 0], they are equally falsy). *)
Inductive Number :=
| NaN
| Num (z : Z)
| Infinity (negative : bool).

(** ToBoolean on a number: NaN and the zeros are falsy. *)
Definition truthyNum (n : Number) : bool :=
  match n with
  | NaN => false
  | Num z => negb (z =? 0)%Z
  | Infinity _ => true
  end.

(** [a || b] on numbers. *)
Definition orElse (a b : Number) : Number :=
  if truthyNum a then a else b.

(** The double nearest to a non-negative integer (ties to even), as a
    natural number, or [None] when it overflows to Infinity. *)
Definition roundNat (m : Z) : option Z :=
  if (m <? 2 ^ 53)%Z then Some m
  else
    let k := (Z.log2 m - 52)%Z in
    let q := (m / 2 ^ k)%Z in
    let r := (m mod 2 ^ k)%Z in
    let half := (2 ^ (k - 1))%Z in
    let q' := if (half <? r)%Z || ((r =? half)%Z && Z.odd q)
              then (q + 1)%Z else q in
    let v := (q' * 2 ^ k)%Z in
    if (v <? 2 ^ 1024)%Z then Some v else None.

(** The Number value of [sign * m], for [m >= 0]. *)
Definition toNumber (negative : bool) (m : Z) : Number :=
  match roundNat m with
  | Some v => Num (if negative then - v else v)
  | None => Infinity negative
  end.

(** The value of a code unit as a digit in the given radix. *)
Definition digitValue (radix : Z) (c : codeUnit) : option Z :=
  let v :=
    if ((48 <=? c) && (c <=? 57))%N then Some (Z.of_N c - 48)%Z
    else if ((97 <=? c) && (c <=? 122))%N then Some (Z.of_N c - 87)%Z
    else if ((65 <=? c) && (c <=? 90))%N then Some (Z.of_N c - 55)%Z
    else None in
  match v with
  | Some d => if (d <? radix)%Z then Some d else None
  | None => None
  end.

(** The longest prefix of radix digits, accumulated most significant
    first: the digits seen so far are worth [acc], [seen] tells whether
    there was one. *)
Fixpoint digits (radix : Z) (s : JSString) (acc : Z) (seen : bool)
  : option Z :=
  match s with
  | [] => if seen then Some acc else None
  | c :: s' =>
    match digitValue radix c with
    | Some d => digits radix s' (acc * radix + d)%Z true
    | None => if seen then Some acc else None
    end
  end.

(** parseInt(string) with the radix argument absent. *)
Definition parseInt (input : JSString) : Number :=
  let S0 := trimStart input in
  let negative := match S0 with c :: _ => (c =? 45)%N | [] => false end in
  let S1 := match S0 with
            | c :: r => if ((c =? 43) || (c =? 45))%N then r else S0
            | [] => S0
            end in
  let '(radix, S2) :=
    match S1 with
    | z :: x :: r =>
      if ((z =? 48) && ((x =? 120) || (x =? 88)))%N then (16%Z, r)
      else (10%Z, S1)
    | _ => (10%Z, S1)
    end in
  match digits radix S2 0%Z false with
  | None => NaN
  | Some mathInt => toNumber negative mathInt
  end.

End JS.

Import JS.

(** ** parseCSV (src/App.tsx, lines 100-137) *)

Definition Row := list JSString.

(** The four variables of the scanning loop. *)
Record ParseState := mkParse {
  rows : list Row;
  currentRow : Row;
  currentVal : JSString;
  inQuote : bool
}.

Definition initial : ParseState :=
  {| rows := []; currentRow := []; currentVal := []; inQuote := false |}.

Definition isChar (c : codeUnit) (o : option codeUnit) : bool :=
  match o with Some d => (d =? c)%N | None => false end.

(** One iteration of the [for] loop at character [char], with
    [nextChar = text[i+1]] ([None] for [undefined]).  The boolean tells
    whether the body executed its [i++], skipping the next character. *)
Definition body (char : codeUnit) (nextChar : option codeUnit) (s : ParseState)
  : ParseState * bool :=
  if (char =? dquote)%N then
    if inQuote s && isChar dquote nextChar then
      ({| rows := rows s; currentRow := currentRow s;
          currentVal := currentVal s ++ [dquote];
          inQuote := inQuote s |}, true)
    else
      ({| rows := rows s; currentRow := currentRow s;
          currentVal := currentVal s;
          inQuote := negb (inQuote s) |}, false)
  else if (char =? comma)%N && negb (inQuote s) then
    ({| rows := rows s; currentRow := currentRow s ++ [currentVal s];
        currentVal := []; inQuote := inQuote s |}, false)
  else if ((char =? CR)%N || (char =? LF)%N) && negb (inQuote s) then
    let skip := (char =? CR)%N && isChar LF nextChar in
    let pushed := currentRow s ++ [currentVal s] in
    let rows' :=
      if (0 <? length pushed)%nat || truthy (currentVal s)
      then rows s ++ [pushed] else rows s in
    ({| rows := rows'; currentRow := []; currentVal := [];
        inQuote := inQuote s |}, skip)
  else
    ({| rows := rows s; currentRow := currentRow s;
        currentVal := currentVal s ++ [char];
        inQuote := inQuote s |}, false).

(** The loop from position [i] on, [text] being the characters from [i]. *)
Fixpoint scan (text : JSString) (s : ParseState) : ParseState :=
  match text with
  | [] => s
  | char :: rest =>
    let '(s', skip) := body char (hd_error rest) s in
    if skip then
      match rest with
      | _ :: rest' => scan rest' s'
      | [] => s'
      end
    else scan rest s'
  end.

(** The flush after the loop. *)
Definition flush (s : ParseState) : list Row :=
  if truthy (currentVal s) || (0 <? length (currentRow s))%nat
  then rows s ++ [currentRow s ++ [currentVal s]]
  else rows s.

Definition parseCSV (text : JSString) : list Row :=
  flush (scan text initial).

(** What the text contributes to a field when it sits inside quotes:
    each interior quote character doubled. *)
Definition escapeQuotes (value : JSString) : JSString :=
  flat_map (fun c => if (c =? dquote)%N then [dquote; dquote] else [c]) value.

(** A value wrapped in quotes. *)
Definition quoted (value : JSString) : JSString :=
  dquote :: escapeQuotes value ++ [dquote].

(** The three record delimiters. *)
Definition isRecordDelimiter (d : JSString) : bool :=
  str_eqb d [CR] || str_eqb d [LF] || str_eqb d [CR; LF].

(** Two adjacent characters the loop handles in one round when it meets
    the first of them in the right mode: a doubled quote, and a carriage
    return with its line feed. *)
Definition glues (c n : codeUnit) : bool :=
  ((c =? dquote) && (n =? dquote) || (c =? CR) && (n =? LF))%N.

(** [seam x y]: no such pair sits across the end of [x] and the start of
    [y], so that the loop over [x ++ y] is the loop over [x] followed by
    the loop over [y]. *)
Definition seam (x y : JSString) : bool :=
  match rev x, y with
  | c :: _, n :: _ => negb (glues c n)
  | _, _ => true
  end.

(** The loop variables with [done] put in front of the finished rows. *)
Definition prepend (done : list Row) (s : ParseState) : ParseState :=
  {| rows := done ++ rows s; currentRow := currentRow s;
     currentVal := currentVal s; inQuote := inQuote s |}.

(** Every record delimiter (a carriage return with the line feed after it
    as one unit, a lone carriage return, a line feed) replaced by one line
    feed. *)
Fixpoint normalizeNewlines (text : JSString) : JSString :=
  match text with
  | [] => []
  | c :: rest =>
    if (c =? CR)%N then
      LF :: match rest with
            | d :: rest' =>
              if (d =? LF)%N then normalizeNewlines rest'
              else normalizeNewlines rest
            | [] => []
            end
    else c :: normalizeNewlines rest
  end.

(** The lines of a text in the specification's sense: the pieces between
    record delimiters, [line] being the piece under construction. *)
Fixpoint specLines (text line : JSString) : list JSString :=
  match text with
  | [] => [line]
  | c :: rest =>
    if (c =? CR)%N then
      line :: match rest with
              | d :: rest' =>
                if (d =? LF)%N then specLines rest' [] else specLines rest []
              | [] => [[]]
              end
    else if (c =? LF)%N then line :: specLines rest []
    else specLines rest (line ++ [c])
  end.

(** The number of lines, a single trailing empty line ignored. *)
Definition countLines (ls : list JSString) : nat :=
  if truthy (last ls []) then length ls else (length ls - 1)%nat.

Definition specLineCount (text : JSString) : nat :=
  countLines (specLines text []).

(** ** The data model (src/types.ts) *)

Inductive Complexity := STANDARD | LIGHT | SIMPLE.

Inductive AppMode := SINGLE | PRESENTATION.

Record GeneratedImage := mkImage {
  id : JSString;
  url : JSString;
  promptUsed : JSString
}.

Record PresentationPage := mkPage {
  pageNumber : Number;
  title : JSString;
  content : JSString;
  visualCue : JSString;
  emphasis : JSString;
  mood : JSString
}.

Record AppState := mkState {
  mode : AppMode;
  step : Z;
  prompt : JSString;
  complexity : Complexity;
  stylePreferences : JSString;
  imageCount : Z;
  generatedImages : list GeneratedImage;
  selectedImageId : option JSString;
  isGenerating : bool;
  aiSuggestions : list JSString;
  referenceImage : option JSString;
  presentationOutline : list PresentationPage;
  isAnimationMode : bool
}.

Definition INITIAL_STATE : AppState :=
  {| mode := SINGLE; step := 1; prompt := []; complexity := STANDARD;
     stylePreferences := []; imageCount := 2; generatedImages := [];
     selectedImageId := None; isGenerating := false; aiSuggestions := [];
     referenceImage := None; presentationOutline := [];
     isAnimationMode := false |}.

(** ** The upload handler (src/App.tsx, lines 152-225) *)

(** Abrupt completion of a piece of code: the only exception the handler
    can raise is the TypeError of a method call on [undefined]. *)
Inductive Error := TypeError.

Inductive Completion (A : Type) :=
| Normal (a : A)
| Throw (e : Error).

Arguments Normal {A} a.
Arguments Throw {A} e.

(** What the handler shows to the user and writes to the console. *)
Inductive Effect :=
| Alert (message : JSString)
| ConsoleError (e : Error).

(** The two search strings of the header heuristic written in katakana:
    the words for slide and for title. *)
Definition markerSlide : JSString := [12473; 12521; 12452; 12489]%N.
Definition markerTitle : JSString := [12479; 12452; 12488; 12523]%N.

(** The message of line 215, telling that no valid data was found. *)
Definition msgNoValidData : JSString :=
  [26377; 21177; 12394; 12487; 12540; 12479; 12364; 35211; 12388; 12363;
   12426; 12414; 12379; 12435; 12391; 12375; 12383; 12290]%N.

(** The message of line 219, telling that reading the CSV failed. *)
Definition msgLoadFailed : JSString :=
  lit "CSV" ++
  [12398; 35501; 12415; 36796; 12415; 12395; 22833; 25943; 12375; 12414;
   12375; 12383; 12290]%N.

(** [a || b] where both sides may throw: [b] is evaluated only when [a]
    completed with [false]. *)
Definition orC (a b : Completion bool) : Completion bool :=
  match a with
  | Throw e => Throw e
  | Normal true => Normal true
  | Normal false => b
  end.

(** [header[i].includes(search)]: a TypeError when [header[i]] is
    [undefined]. *)
Definition includesAt (header : Row) (i : nat) (search : JSString)
  : Completion bool :=
  match nth_error header i with
  | Some field => Normal (includes field search)
  | None => Throw TypeError
  end.

(** The title and the content a data row stands for (lines 181-193). *)
Definition titleOf (cols : Row) : JSString :=
  match cols with
  | _ :: c1 :: _ :: _ => c1
  | [c0; _] => c0
  | _ => []
  end.

Definition contentOf (cols : Row) : JSString :=
  match cols with
  | _ :: _ :: c2 :: _ => c2
  | [_; c1] => c1
  | [c0] => c0
  | [] => []
  end.

(** The page number of a data row, [newOutline] being the pages pushed so
    far (lines 180 and 185). *)
Definition pageNumOf (newOutline : list PresentationPage) (cols : Row)
  : Number :=
  let pageNum := Num (Z.of_nat (length newOutline) + 1) in
  match cols with
  | c0 :: _ :: _ :: _ => orElse (parseInt c0) pageNum
  | _ => pageNum
  end.

(** One round of the loop over the data rows (lines 176-204). *)
Definition addRow (newOutline : list PresentationPage) (cols : Row)
  : list PresentationPage :=
  let pageNum := pageNumOf newOutline cols in
  let title := titleOf cols in
  let content := contentOf cols in
  if truthy title || truthy content then
    newOutline ++
    [{| pageNumber := pageNum; title := trim title; content := trim content;
        visualCue := []; emphasis := []; mood := [] |}]
  else newOutline.

(** The title and the content of a page. *)
Definition titleContent (p : PresentationPage) : JSString * JSString :=
  (title p, content p).

(** The test of line 195, on the row. *)
Definition accepted (cols : Row) : bool :=
  truthy (titleOf cols) || truthy (contentOf cols).

(** What the loop guarantees about the page [p] made from the accepted
    data row [cols], [k] rows having been accepted before it: the page
    holds the title and the content of that row, trimmed; its number is
    truthy; it is the number parseInt reads in the first of three or more
    fields when that is truthy, and [k+1] otherwise. *)
Definition pageOfRow (k : nat) (cols : Row) (p : PresentationPage) : Prop :=
  title p = trim (titleOf cols) /\
  content p = trim (contentOf cols) /\
  truthyNum (pageNumber p) = true /\
  match cols with
  | c0 :: _ :: _ :: _ =>
    (truthyNum (parseInt c0) = true -> pageNumber p = parseInt c0) /\
    (truthyNum (parseInt c0) = false ->
     pageNumber p = Num (Z.of_nat k + 1))
  | _ => pageNumber p = Num (Z.of_nat k + 1)
  end.

(** The page pushed for the accepted row [cols] when [k] pages are in
    the outline, and the pages pushed for a run of accepted rows. *)
Definition pageAt (k : nat) (cols : Row) : PresentationPage :=
  {| pageNumber :=
       match cols with
       | c0 :: _ :: _ :: _ => orElse (parseInt c0) (Num (Z.of_nat k + 1))
       | _ => Num (Z.of_nat k + 1)
       end;
     title := trim (titleOf cols);
     content := trim (contentOf cols);
     visualCue := []; emphasis := []; mood := [] |}.

Fixpoint pagesFrom (k : nat) (acceptedRows : list Row)
  : list PresentationPage :=
  match acceptedRows with
  | [] => []
  | cols :: more => pageAt k cols :: pagesFrom (S k) more
  end.

Section Ingestion.

(** String.prototype.toLowerCase, the Unicode lower-casing of the
    runtime, is kept abstract. *)
Variable toLowerCase : JSString -> JSString.

(** Lines 167-171: the index of the first data row.  [row0] is [rows[0]],
    [None] when it is [undefined]. *)
Definition startIndexOf (row0 : option Row) : Completion nat :=
  match row0 with
  | None => Throw TypeError
  | Some r =>
    let header := map toLowerCase r in
    match orC (includesAt header 0 markerSlide)
         (orC (includesAt header 0 (lit "slide"))
         (orC (includesAt header 1 markerTitle)
              (includesAt header 1 (lit "title")))) with
    | Throw e => Throw e
    | Normal true => Normal 1%nat
    | Normal false => Normal 0%nat
    end
  end.

(** Lines 165-205: from the tokenized rows to the new outline. *)
Definition buildOutline (rows : list Row)
  : Completion (list PresentationPage) :=
  match startIndexOf (nth_error rows 0) with
  | Throw e => Throw e
  | Normal startIndex => Normal (fold_left addRow (skipn startIndex rows) [])
  end.

(** The pages accepted from a text: the content of [newOutline] when
    the [try] block is left, none if it is left by an exception. *)
Definition acceptedPages (text : JSString) : list PresentationPage :=
  match buildOutline (parseCSV text) with
  | Normal newOutline => newOutline
  | Throw _ => []
  end.

(** The [setState] of lines 208-213. *)
Definition install (newOutline : list PresentationPage) (prev : AppState)
  : AppState :=
  {| mode := mode prev;
     step := 2;
     prompt := prompt prev;
     complexity := complexity prev;
     stylePreferences := stylePreferences prev;
     imageCount := Z.of_nat (length newOutline);
     generatedImages := generatedImages prev;
     selectedImageId := selectedImageId prev;
     isGenerating := isGenerating prev;
     aiSuggestions := aiSuggestions prev;
     referenceImage := referenceImage prev;
     presentationOutline := newOutline;
     isAnimationMode := isAnimationMode prev |}.

(** [reader.onload] (lines 157-221) on the text read from the file: the
    application state after it and what it showed, in order. *)
Definition onload (prev : AppState) (text : JSString)
  : AppState * list Effect :=
  if negb (truthy text) then (prev, [])
  else
    let rows := parseCSV text in
    if (length rows =? 0)%nat then (prev, [])
    else
      match buildOutline rows with
      | Normal newOutline =>
        if (0 <? length newOutline)%nat then (install newOutline prev, [])
        else (prev, [Alert msgNoValidData])
      | Throw err => (prev, [ConsoleError err; Alert msgLoadFailed])
      end.

(** [handleCsvUpload]: nothing happens without a file; otherwise the
    file is read as text and handed to [onload]. *)
Definition handleCsvUpload (prev : AppState) (file : option JSString)
  : AppState * list Effect :=
  match file with
  | None => (prev, [])
  | Some text => onload prev text
  end.

End Ingestion.

(** Lower-casing on the Basic Latin block, where toLowerCase maps the
    letters A-Z to a-z; every other code unit is left as it is, which is
    what the runtime does on digits, punctuation, white space, kana and
    ideographs.  Used to evaluate the handler on such texts. *)
Definition toLowerCaseLatin (s : JSString) : JSString :=
  map (fun c => if ((65 <=? c) && (c <=? 90))%N then (c + 32)%N else c) s.


(** ** Reading and writing rows *)

(** The fields of a line without quote characters: the pieces between
    commas, [field] being the piece under construction. *)
Fixpoint fieldsOf (line field : JSString) : Row :=
  match line with
  | [] => [field]
  | c :: rest =>
    if (c =? comma)%N then field :: fieldsOf rest []
    else fieldsOf rest (field ++ [c])
  end.

(** The lines of a text without its single trailing empty line. *)
Definition dropTrailingEmpty (ls : list JSString) : list JSString :=
  if truthy (last ls []) then ls else removelast ls.

(** The fields of a row written out, each one wrapped in quotes, with
    commas between them. *)
Fixpoint joinQuoted (fields : Row) : JSString :=
  match fields with
  | [] => []
  | [field] => quoted field
  | field :: more => quoted field ++ comma :: joinQuoted more
  end.

(** Rows written out one after the other, each one ended by [eol]. *)
Definition writeRows (eol : JSString) (rows : list Row) : JSString :=
  flat_map (fun row => joinQuoted row ++ eol) rows.

(** [tracks s line]: the pending row and field of [s] are what the loop
    has made of the characters of [line]. *)
Definition tracks (s : ParseState) (line : JSString) : Prop :=
  forall tail,
    fieldsOf (line ++ tail) [] = currentRow s ++ fieldsOf tail (currentVal s).


(** What holds of every page made by the upload handler. *)
Definition importedPage (p : PresentationPage) : Prop :=
  visualCue p = [] /\ emphasis p = [] /\ mood p = [] /\
  trim (title p) = title p /\ trim (content p) = content p.

(** A string that does not start with white space. *)
Definition cleanStart (s : JSString) : Prop :=
  match s with
  | [] => True
  | c :: _ => isWhiteSpace c = false
  end.

(** A row of fewer than three fields: its page is numbered by position. *)
Definition shortRow (cols : Row) : Prop := (length cols < 3)%nat.


(** ** Editing the outline (src/App.tsx, lines 347-352) *)

(** [keyof PresentationPage]. *)
Inductive PageField :=
| K_pageNumber | K_title | K_content | K_visualCue | K_emphasis | K_mood.

(** The values a page holds under its keys. *)
Inductive FieldValue :=
| NumberValue (n : Number)
| StringValue (s : JSString).

(** [page[field]]. *)
Definition readField (page : PresentationPage) (field : PageField)
  : FieldValue :=
  match field with
  | K_pageNumber => NumberValue (pageNumber page)
  | K_title => StringValue (title page)
  | K_content => StringValue (content page)
  | K_visualCue => StringValue (visualCue page)
  | K_emphasis => StringValue (emphasis page)
  | K_mood => StringValue (mood page)
  end.

(** [page[field] = value] for the keys the handler lets through; line
    349 returns before the assignment for the key of the page number. *)
Definition assignField (page : PresentationPage) (field : PageField)
           (value : JSString) : PresentationPage :=
  match field with
  | K_pageNumber => page
  | K_title =>
    mkPage (pageNumber page) value (content page)
           (visualCue page) (emphasis page) (mood page)
  | K_content =>
    mkPage (pageNumber page) (title page) value
           (visualCue page) (emphasis page) (mood page)
  | K_visualCue =>
    mkPage (pageNumber page) (title page) (content page)
           value (emphasis page) (mood page)
  | K_emphasis =>
    mkPage (pageNumber page) (title page) (content page)
           (visualCue page) value (mood page)
  | K_mood =>
    mkPage (pageNumber page) (title page) (content page)
           (visualCue page) (emphasis page) value
  end.

(** The array with the element at [index] replaced; [index] is within
    the array wherever this is used. *)
Fixpoint replaceAt (A : Type) (index : nat) (x : A) (l : list A) : list A :=
  match l, index with
  | [], _ => []
  | _ :: l', O => x :: l'
  | y :: l', S i => y :: replaceAt A i x l'
  end.

Arguments replaceAt {A} index x l.

Definition isPageNumberKey (field : PageField) : bool :=
  match field with K_pageNumber => true | _ => false end.

(** The [setState] of line 351. *)
Definition withOutline (newOutline : list PresentationPage) (prev : AppState)
  : AppState :=
  {| mode := mode prev;
     step := step prev;
     prompt := prompt prev;
     complexity := complexity prev;
     stylePreferences := stylePreferences prev;
     imageCount := imageCount prev;
     generatedImages := generatedImages prev;
     selectedImageId := selectedImageId prev;
     isGenerating := isGenerating prev;
     aiSuggestions := aiSuggestions prev;
     referenceImage := referenceImage prev;
     presentationOutline := newOutline;
     isAnimationMode := isAnimationMode prev |}.

(** [handleOutlineChange(index, field, value)] on the current state: the
    copy of the outline, the early return, the assignment to the page at
    [index], which is a TypeError when there is no such page, and the
    update of the state. *)
Definition handleOutlineChange (prev : AppState) (index : nat)
           (field : PageField) (value : JSString) : Completion AppState :=
  let newOutline := presentationOutline prev in
  if isPageNumberKey field then Normal prev
  else
    match nth_error newOutline index with
    | None => Throw TypeError
    | Some page =>
      Normal (withOutline
                (replaceAt index (assignField page field value) newOutline)
                prev)
    end.

(** One change after another; nothing follows an exception. *)
Definition thenChange (r : Completion AppState) (index : nat)
           (field : PageField) (value : JSString) : Completion AppState :=
  match r with
  | Normal st => handleOutlineChange st index field value
  | Throw e => Throw e
  end.

(** ** Names of the Drive folder and files (src/App.tsx, lines 394-426) *)

Definition underscore : codeUnit := 95%N.
Definition zeroDigit : codeUnit := 48%N.

(** The class [\w] of a regular expression without flags. *)
Definition isWordChar (c : codeUnit) : bool :=
  (((48 <=? c) && (c <=? 57)) || ((65 <=? c) && (c <=? 90)) ||
   ((97 <=? c) && (c <=? 122)) || (c =? 95))%N.

(** The characters [/[^\w\s]/] does not match. *)
Definition isSafeChar (c : codeUnit) : bool :=
  isWordChar c || isWhiteSpace c.

(** [s.replace(/[^\w\s]/g, '_')] *)
Definition replaceUnsafe (s : JSString) : JSString :=
  map (fun c => if isSafeChar c then c else underscore) s.

(** The digits of a decimal numeral as code units. *)
Fixpoint uintCodes (d : Decimal.uint) : JSString :=
  match d with
  | Decimal.Nil => []
  | Decimal.D0 d' => 48%N :: uintCodes d'
  | Decimal.D1 d' => 49%N :: uintCodes d'
  | Decimal.D2 d' => 50%N :: uintCodes d'
  | Decimal.D3 d' => 51%N :: uintCodes d'
  | Decimal.D4 d' => 52%N :: uintCodes d'
  | Decimal.D5 d' => 53%N :: uintCodes d'
  | Decimal.D6 d' => 54%N :: uintCodes d'
  | Decimal.D7 d' => 55%N :: uintCodes d'
  | Decimal.D8 d' => 56%N :: uintCodes d'
  | Decimal.D9 d' => 57%N :: uintCodes d'
  end.

(** [String(n)] for a natural number: its decimal digits. *)
Definition numberToString (n : nat) : JSString :=
  uintCodes (Nat.to_uint n).

(** [s.padStart(targetLength, fill)] for a filler of one character. *)
Definition padStart (targetLength : nat) (fill : codeUnit) (s : JSString)
  : JSString :=
  repeat fill (targetLength - length s) ++ s.

(** [s.slice(-n)]: the last [n] characters, all of [s] if it is shorter. *)
Definition sliceLast (n : nat) (s : JSString) : JSString :=
  skipn (length s - n) s.

(** [a || b] on strings. *)
Definition orString (a b : JSString) : JSString :=
  if truthy a then a else b.

(** What the handler reads from [new Date()]: [getFullYear()],
    [getMonth()], which counts from 0, and [getDate()]. *)
Record DateParts := mkDate {
  fullYear : nat;
  month : nat;
  date : nat
}.

(** Line 395. *)
Definition yymmdd (now : DateParts) : JSString :=
  sliceLast 2 (numberToString (fullYear now))
  ++ padStart 2 zeroDigit (numberToString (month now + 1))
  ++ padStart 2 zeroDigit (numberToString (date now)).

(** The two default summaries of lines 399 and 402. *)
Definition defaultDeckSummary : JSString :=
  [12503; 12524; 12476; 12531; 36039; 26009]%N.
Definition defaultSingleSummary : JSString := [49; 26522; 32117]%N.

(** Lines 397-404. *)
Definition folderNameOf (state : AppState) (now : DateParts) : JSString :=
  let summary :=
    match mode state with
    | PRESENTATION =>
      orString (orString (prompt state)
                         (match presentationOutline state with
                          | page :: _ => title page
                          | [] => []
                          end))
               defaultDeckSummary
    | SINGLE => orString (prompt state) defaultSingleSummary
    end in
  yymmdd now ++ [underscore] ++ replaceUnsafe (firstn 30 summary).

(** An element of [imagesToUpload]. *)
Record UploadItem := mkItem {
  itemUrl : JSString;
  itemName : JSString
}.

(** Lines 413-421: the name of the file for the image at [idx]. *)
Definition fileNameOf (state : AppState) (idx : nat) : JSString :=
  match mode state with
  | PRESENTATION =>
    match nth_error (presentationOutline state) idx with
    | Some pageInfo =>
      padStart 2 zeroDigit (numberToString (idx + 1))
      ++ [underscore] ++ replaceUnsafe (title pageInfo) ++ lit ".png"
    | None =>
      padStart 2 zeroDigit (numberToString (idx + 1))
      ++ [underscore] ++ markerSlide ++ lit ".png"
    end
  | SINGLE =>
    [30011; 20687; 95]%N
    ++ padStart 2 zeroDigit (numberToString (idx + 1)) ++ lit ".png"
  end.

(** [images.map((img, idx) => ...)] from index [idx] on. *)
Fixpoint itemsFrom (state : AppState) (idx : nat)
         (images : list GeneratedImage) : list UploadItem :=
  match images with
  | [] => []
  | img :: more =>
    {| itemUrl := url img; itemName := fileNameOf state idx |}
      :: itemsFrom state (S idx) more
  end.

(** Lines 412-426. *)
Definition imagesToUpload (state : AppState) : list UploadItem :=
  itemsFrom state 0 (generatedImages state).

(** ** Uploading in sequence (src/services/googleDriveService.ts,
    lines 363-401) *)

(** A promise once settled. *)
Inductive Settled (E A : Type) :=
| Fulfilled (value : A)
| Rejected (reason : E).

Arguments Fulfilled {E A} value.
Arguments Rejected {E A} reason.

(** The folder of line 5. *)
Definition GOOGLE_DRIVE_PARENT_FOLDER_ID : JSString :=
  lit "1jHWaqo50qd68ko8fMoWtDbp7LQfG_0pA".

Section Upload.

(** The Drive and what it answers are kept abstract: an upload takes the
    data URL, the name and the folder, and settles, changing the world. *)
Variable World : Type.
Variable Reason : Type.
Variable uploadImageToDriveInFolder :
  JSString -> JSString -> JSString -> World -> Settled Reason JSString * World.

(** The [for] loop of lines 369-377, with the items handed to an upload
    so far in [attempted]. *)
Fixpoint uploadLoop (images : list UploadItem) (folderId : JSString)
         (results : list JSString) (attempted : list UploadItem) (w : World)
  : Settled Reason (list JSString) * list UploadItem * World :=
  match images with
  | [] => (Fulfilled results, attempted, w)
  | image :: more =>
    match uploadImageToDriveInFolder (itemUrl image) (itemName image)
                                     folderId w with
    | (Fulfilled fileUrl, w') =>
      uploadLoop more folderId (results ++ [fileUrl]) (attempted ++ [image]) w'
    | (Rejected error, w') => (Rejected error, attempted ++ [image], w')
    end
  end.

(** [uploadedAll images folderId w urls w']: handed to an upload one
    after the other from the world [w] on, every image of [images] was
    uploaded, with the addresses [urls] in order, and the world is then
    [w']. *)
Fixpoint uploadedAll (images : list UploadItem) (folderId : JSString)
         (w : World) (urls : list JSString) (w' : World) : Prop :=
  match images, urls with
  | [], [] => w' = w
  | image :: more, fileUrl :: urls' =>
    exists w1,
      uploadImageToDriveInFolder (itemUrl image) (itemName image) folderId w
      = (Fulfilled fileUrl, w1) /\
      uploadedAll more folderId w1 urls' w'
  | _, _ => False
  end.

Definition uploadImagesToDriveInFolder (images : list UploadItem)
           (folderId : JSString) (w : World)
  : Settled Reason (list JSString) * list UploadItem * World :=
  uploadLoop images folderId [] [] w.

(** The legacy entry: every image goes to the parent folder. *)
Definition uploadImagesToDrive (images : list UploadItem) (w : World)
  : Settled Reason (list JSString) * list UploadItem * World :=
  uploadLoop images GOOGLE_DRIVE_PARENT_FOLDER_ID [] [] w.

End Upload.

(** A Drive for examples: the world is the list of the names stored, an
    upload stores the name and answers it, and fails, storing nothing,
    on an empty data URL. *)
Definition storeByName (dataUrl name folderId : JSString)
           (w : list JSString) : Settled JSString JSString * list JSString :=
  if truthy dataUrl then (Fulfilled name, w ++ [name])
  else (Rejected name, w).

(** The decimal digits. *)
Definition isDigit (c : codeUnit) : bool := ((48 <=? c) && (c <=? 57))%N.

(** ** Editing an image (src/App.tsx, lines 307-328 and 490) *)

(** The state of the component besides [state]: the two [useState]
    cells the edit handler reads and writes. *)
Record EditorState := mkEditor {
  appState : AppState;
  editInstruction : JSString;
  isEditing : bool
}.

(** What a handler shows or logs when a collaborator fails. *)
Inductive UiEffect (E : Type) :=
| ShowAlert (message : JSString)
| LogError (reason : E).

Arguments ShowAlert {E} message.
Arguments LogError {E} reason.

(** The message of line 324, telling that editing the image failed. *)
Definition msgEditFailed : JSString :=
  [30011; 20687; 12398; 32232; 38598; 12395; 22833; 25943; 12375; 12414;
   12375; 12383; 12290]%N.

(** [img.id === state.selectedImageId], the latter possibly [null]. *)
Definition idMatches (selected : option JSString) (img : GeneratedImage)
  : bool :=
  match selected with
  | Some s => str_eqb (id img) s
  | None => false
  end.

(** [state.generatedImages.find(img => img.id === state.selectedImageId)] *)
Definition selectedImageOf (state : AppState) : option GeneratedImage :=
  find (idMatches (selectedImageId state)) (generatedImages state).

(** The [setState] of lines 315-319. *)
Definition withNewImage (newImage : GeneratedImage) (prev : AppState)
  : AppState :=
  {| mode := mode prev;
     step := step prev;
     prompt := prompt prev;
     complexity := complexity prev;
     stylePreferences := stylePreferences prev;
     imageCount := imageCount prev;
     generatedImages := newImage :: generatedImages prev;
     selectedImageId := Some (id newImage);
     isGenerating := isGenerating prev;
     aiSuggestions := aiSuggestions prev;
     referenceImage := referenceImage prev;
     presentationOutline := presentationOutline prev;
     isAnimationMode := isAnimationMode prev |}.

Section EditImage.

(** The image service is kept abstract: asked to edit the image at a
    data URL by an instruction, it answers an image, [null], or fails. *)
Variable Reason : Type.
Variable editInfographic :
  JSString -> JSString -> Settled Reason (option GeneratedImage).

(** [handleEditImage]: the component state once the handler is through,
    and what it showed. *)
Definition handleEditImage (s : EditorState)
  : EditorState * list (UiEffect Reason) :=
  match selectedImageOf (appState s) with
  | None => (s, [])
  | Some selectedImage =>
    if negb (truthy (editInstruction s)) then (s, [])
    else
      match editInfographic (url selectedImage) (editInstruction s) with
      | Fulfilled (Some newImage) =>
        ({| appState := withNewImage newImage (appState s);
            editInstruction := [];
            isEditing := false |}, [])
      | Fulfilled None =>
        ({| appState := appState s;
            editInstruction := editInstruction s;
            isEditing := false |}, [])
      | Rejected error =>
        ({| appState := appState s;
            editInstruction := editInstruction s;
            isEditing := false |},
         [LogError error; ShowAlert msgEditFailed])
      end
  end.

End EditImage.

(** The test of the final flush: a field or a row is pending. *)
Definition hasPending (s : ParseState) : bool :=
  truthy (currentVal s) || (0 <? length (currentRow s))%nat.
Example parse_simple :
  parseCSV (lit "1,Intro,Welcome") = [[lit "1"; lit "Intro"; lit "Welcome"]].
Proof. reflexivity. Qed.

(** ** Reasoning about the scanning loop *)

Section ListLookahead.
Variable A : Type.
Variable P : list A -> Prop.
Hypothesis P_nil : P [].
Hypothesis P_cons : forall a l, P l -> P (tl l) -> P (a :: l).

(** Induction for loops that consume one or two elements per round. *)
Lemma lookahead_ind : forall l, P l.
Proof.
  assert (H : forall l, P l /\ P (tl l)).
  { induction l as [|a l [IH1 IH2]]; simpl; split; auto. }
  intro l. apply H.
Qed.
End ListLookahead.

Lemma scan_nil s : scan [] s = s.
Proof. reflexivity. Qed.

Lemma scan_cons char rest s :
  scan (char :: rest) s =
  if snd (body char (hd_error rest) s)
  then scan (tl rest) (fst (body char (hd_error rest) s))
  else scan rest (fst (body char (hd_error rest) s)).
Proof.
  simpl. destruct (body char (hd_error rest) s) as [s' [|]]; simpl; auto.
  destruct rest; reflexivity.
Qed.

(** Every property of the loop variables kept by one round is kept by
    the loop. *)
Lemma scan_preserves (I : ParseState -> Prop) :
  (forall char nextChar s, I s -> I (fst (body char nextChar s))) ->
  forall text s, I s -> I (scan text s).
Proof.
  intros Hbody text. induction text as [|c rest IH IHtl] using lookahead_ind;
    intros s Hs.
  - exact Hs.
  - rewrite scan_cons. destruct (snd (body c (hd_error rest) s)); auto.
Qed.

(** The cases of [body]. *)
Lemma body_quote_escaped s nextChar :
  inQuote s = true -> isChar dquote nextChar = true ->
  body dquote nextChar s =
  (mkParse (rows s) (currentRow s) (currentVal s ++ [dquote]) true, true).
Proof. intros Hq Hn. unfold body. simpl. rewrite Hq, Hn. reflexivity. Qed.

Lemma body_quote_toggle s nextChar :
  inQuote s && isChar dquote nextChar = false ->
  body dquote nextChar s =
  (mkParse (rows s) (currentRow s) (currentVal s) (negb (inQuote s)), false).
Proof. intros H. unfold body. simpl. rewrite H. reflexivity. Qed.

Lemma body_inside char nextChar s :
  char <> dquote -> inQuote s = true ->
  body char nextChar s =
  (mkParse (rows s) (currentRow s) (currentVal s ++ [char]) true, false).
Proof.
  intros Hc Hq. unfold body. apply N.eqb_neq in Hc. rewrite Hc, Hq. simpl.
  rewrite !andb_false_r. reflexivity.
Qed.

Lemma body_comma s nextChar :
  inQuote s = false ->
  body comma nextChar s =
  (mkParse (rows s) (currentRow s ++ [currentVal s]) [] false, false).
Proof. intros Hq. unfold body. simpl. rewrite Hq. reflexivity. Qed.

Lemma body_newline char nextChar s :
  char = CR \/ char = LF -> inQuote s = false ->
  body char nextChar s =
  (mkParse (rows s ++ [currentRow s ++ [currentVal s]]) [] [] false,
   (char =? CR)%N && isChar LF nextChar).
Proof.
  intros Hc Hq. unfold body. rewrite Hq.
  replace (0 <? length (currentRow s ++ [currentVal s]))%nat with true.
  2:{ symmetry. apply Nat.ltb_lt. rewrite length_app. simpl. lia. }
  destruct Hc; subst; reflexivity.
Qed.

Lemma body_plain char nextChar s :
  char <> dquote -> char <> comma -> char <> CR -> char <> LF ->
  body char nextChar s =
  (mkParse (rows s) (currentRow s) (currentVal s ++ [char]) (inQuote s),
   false).
Proof.
  intros H1 H2 H3 H4. unfold body.
  apply N.eqb_neq in H1, H2, H3, H4. rewrite H1, H2, H3, H4. reflexivity.
Qed.

Lemma escapeQuotes_quote value :
  escapeQuotes (dquote :: value) = dquote :: dquote :: escapeQuotes value.
Proof. reflexivity. Qed.

Lemma escapeQuotes_other c value :
  c <> dquote -> escapeQuotes (c :: value) = c :: escapeQuotes value.
Proof.
  intros Hc. unfold escapeQuotes. simpl. apply N.eqb_neq in Hc.
  rewrite Hc. reflexivity.
Qed.

(** Inside a quoted span the loop copies an escaped value into the
    pending field, whatever follows it. *)
Lemma scan_escaped value : forall rest s,
  inQuote s = true ->
  scan (escapeQuotes value ++ rest) s =
  scan rest (mkParse (rows s) (currentRow s) (currentVal s ++ value) true).
Proof.
  induction value as [|c value IH]; intros rest s Hq.
  - simpl. rewrite app_nil_r. destruct s; simpl in *; subst; reflexivity.
  - destruct (N.eq_dec c dquote) as [->|Hc].
    + rewrite escapeQuotes_quote, <- !app_comm_cons, scan_cons.
      simpl hd_error.
      rewrite body_quote_escaped by (auto; apply N.eqb_refl).
      cbn [fst snd tl]. rewrite IH by reflexivity.
      cbn [rows currentRow currentVal]. rewrite <- app_assoc. reflexivity.
    + rewrite escapeQuotes_other, <- app_comm_cons, scan_cons by assumption.
      rewrite body_inside by assumption.
      cbn [fst snd]. rewrite IH by reflexivity.
      cbn [rows currentRow currentVal]. rewrite <- app_assoc. reflexivity.
Qed.

Example quoted_comma :
  parseCSV (lit "1," ++ quoted (lit "a,b") ++ lit ",c")
  = [[lit "1"; lit "a,b"; lit "c"]].
Proof. reflexivity. Qed.

(** *** Lookahead *)

Lemma body_skip_glues char n s :
  snd (body char (Some n) s) = true -> glues char n = true.
Proof.
  unfold body, glues.
  destruct (N.eqb_spec char dquote) as [->|Hd].
  - simpl. destruct (inQuote s); simpl; [|discriminate].
    destruct (n =? dquote)%N; simpl; auto.
  - destruct ((char =? comma)%N && negb (inQuote s)); [discriminate|].
    destruct (((char =? CR)%N || (char =? LF)%N) && negb (inQuote s));
      [|discriminate].
    simpl. intros ->. reflexivity.
Qed.

Lemma body_no_skip_at_end char s : snd (body char None s) = false.
Proof.
  unfold body. simpl. rewrite !andb_false_r.
  destruct (char =? dquote)%N; [reflexivity|].
  destruct ((char =? comma)%N && negb (inQuote s)); [reflexivity|].
  destruct (((char =? CR)%N || (char =? LF)%N) && negb (inQuote s));
    reflexivity.
Qed.

(** The next character matters to a round only when it glues. *)
Lemma body_lookahead char n s :
  glues char n = false -> body char (Some n) s = body char None s.
Proof.
  unfold glues, body. intros H.
  destruct (N.eqb_spec char dquote) as [->|Hd].
  - simpl in H. rewrite orb_false_r in H. simpl. rewrite H.
    rewrite !andb_false_r. reflexivity.
  - simpl in H. simpl isChar. rewrite H, andb_false_r. reflexivity.
Qed.

Lemma body_lookahead_opt char o s :
  match o with Some n => glues char n = false | None => True end ->
  body char o s = body char None s.
Proof. destruct o; intros H; [apply body_lookahead; exact H | reflexivity]. Qed.

Lemma seam_nil_l y : seam [] y = true.
Proof. reflexivity. Qed.

Lemma seam_cons c d x y : seam (c :: d :: x) y = seam (d :: x) y.
Proof.
  unfold seam. simpl.
  destruct (rev x) as [|e r]; simpl; reflexivity.
Qed.

Lemma seam_single c y :
  seam [c] y = true ->
  match hd_error y with Some n => glues c n = false | None => True end.
Proof.
  unfold seam. simpl. destruct y as [|n y]; simpl; auto.
  intros H. apply negb_true_iff. exact H.
Qed.

Lemma seam_app_r x y z : y <> [] -> seam x (y ++ z) = seam x y.
Proof. intros Hy. destruct y; [congruence|]. reflexivity. Qed.

(** The loop over a concatenation. *)
Lemma scan_app x y : forall s,
  seam x y = true -> scan (x ++ y) s = scan y (scan x s).
Proof.
  induction x as [|c x IH IHtl] using lookahead_ind; intros s Hseam.
  - reflexivity.
  - rewrite <- app_comm_cons, !scan_cons.
    destruct x as [|d x].
    + simpl app. simpl (hd_error []).
      rewrite (body_lookahead_opt c (hd_error y) s)
        by (apply seam_single; auto).
      rewrite body_no_skip_at_end. reflexivity.
    + simpl hd_error. rewrite seam_cons in Hseam.
      destruct (snd (body c (Some d) s)).
      * simpl tl. apply IHtl. simpl tl.
        destruct x; [apply seam_nil_l|].
        rewrite seam_cons in Hseam. exact Hseam.
      * apply IH. exact Hseam.
Qed.

(** *** Finished rows are never touched again *)

Lemma body_prepend done char nextChar s :
  body char nextChar (prepend done s) =
  (prepend done (fst (body char nextChar s)), snd (body char nextChar s)).
Proof.
  unfold body, prepend. simpl.
  destruct (char =? dquote)%N.
  - destruct (inQuote s && isChar dquote nextChar); reflexivity.
  - destruct ((char =? comma)%N && negb (inQuote s)); [reflexivity|].
    destruct (((char =? CR)%N || (char =? LF)%N) && negb (inQuote s));
      [|reflexivity].
    simpl.
    destruct ((0 <? length (currentRow s ++ [currentVal s]))%nat
              || truthy (currentVal s));
      simpl; rewrite ?app_assoc; reflexivity.
Qed.

Lemma scan_prepend done text : forall s,
  scan text (prepend done s) = prepend done (scan text s).
Proof.
  induction text as [|c rest IH IHtl] using lookahead_ind; intros s.
  - reflexivity.
  - rewrite !scan_cons, body_prepend. cbn [fst snd].
    destruct (snd (body c (hd_error rest) s)); auto.
Qed.

Lemma flush_prepend done s : flush (prepend done s) = done ++ flush s.
Proof.
  unfold flush, prepend. simpl.
  destruct (truthy (currentVal s) || (0 <? length (currentRow s))%nat);
    rewrite ?app_assoc; reflexivity.
Qed.

(** Scanning on from a row boundary with [done] rows finished. *)
Lemma flush_scan_boundary done text :
  flush (scan text (mkParse done [] [] false)) = done ++ parseCSV text.
Proof.
  unfold parseCSV.
  replace (mkParse done [] [] false) with (prepend done initial)
    by (unfold prepend, initial; simpl; rewrite app_nil_r; reflexivity).
  rewrite scan_prepend, flush_prepend. reflexivity.
Qed.

(** *** Text without quote characters *)

Lemma body_outside_inQuote char nextChar s :
  char <> dquote -> inQuote s = false ->
  inQuote (fst (body char nextChar s)) = false.
Proof.
  intros Hc Hq. unfold body. apply N.eqb_neq in Hc. rewrite Hc, Hq.
  destruct (char =? comma)%N; simpl; [reflexivity|].
  destruct ((char =? CR)%N || (char =? LF)%N); reflexivity.
Qed.

Lemma not_in_cons_inv (c d : codeUnit) l :
  ~ In d (c :: l) -> c <> d /\ ~ In d l.
Proof. simpl. intros H. split; intro; apply H; auto. Qed.

Lemma not_in_tl (d : codeUnit) l : ~ In d l -> ~ In d (tl l).
Proof. destruct l; simpl; auto. Qed.

Lemma normalizeNewlines_CR rest :
  normalizeNewlines (CR :: rest) =
  LF :: normalizeNewlines (if isChar LF (hd_error rest) then tl rest else rest).
Proof.
  destruct rest as [|d rest]; [reflexivity|].
  change (normalizeNewlines (CR :: d :: rest))
    with (LF :: (if (d =? LF)%N then normalizeNewlines rest
                 else normalizeNewlines (d :: rest))).
  cbn [hd_error isChar tl]. destruct (d =? LF)%N; reflexivity.
Qed.

Lemma normalizeNewlines_other c rest :
  c <> CR -> normalizeNewlines (c :: rest) = c :: normalizeNewlines rest.
Proof.
  intros Hc. apply N.eqb_neq in Hc. simpl. rewrite Hc. reflexivity.
Qed.

(** The loop does not see the difference between a text and its
    normalization, as long as no quote character occurs. *)
Lemma scan_normalizeNewlines text : forall s,
  ~ In dquote text -> inQuote s = false ->
  scan (normalizeNewlines text) s = scan text s.
Proof.
  induction text as [|c rest IH IHtl] using lookahead_ind; intros s Hnq Hq.
  - reflexivity.
  - apply not_in_cons_inv in Hnq. destruct Hnq as [Hc Hrest].
    destruct (N.eq_dec c CR) as [->|Hcr].
    + rewrite normalizeNewlines_CR, !scan_cons.
      rewrite !body_newline by auto. cbn [fst snd].
      change (LF =? CR)%N with false. rewrite N.eqb_refl. simpl andb.
      destruct (isChar LF (hd_error rest)).
      * apply IHtl; auto using not_in_tl.
      * apply IH; auto.
    + rewrite normalizeNewlines_other, !scan_cons by assumption.
      assert (Hg : forall o,
                 match o with Some n => glues c n = false | None => True end).
      { intros [n|]; auto. unfold glues.
        apply N.eqb_neq in Hcr. rewrite Hcr.
        destruct (N.eqb_spec c dquote); [congruence|reflexivity]. }
      rewrite (body_lookahead_opt c (hd_error (normalizeNewlines rest)) s)
        by apply Hg.
      rewrite (body_lookahead_opt c (hd_error rest) s) by apply Hg.
      rewrite body_no_skip_at_end.
      apply IH; auto. apply body_outside_inQuote; auto.
Qed.

Lemma countLines_cons line ls :
  ls <> [] -> countLines (line :: ls) = S (countLines ls).
Proof.
  intros Hls. unfold countLines. destruct ls as [|l ls]; [congruence|].
  change (last (line :: l :: ls) []) with (last (l :: ls) []).
  destruct (truthy (last (l :: ls) [])); simpl; lia.
Qed.

Lemma specLines_nonempty text : forall line, specLines text line <> [].
Proof.
  induction text as [|c rest IH]; intros line; simpl.
  - discriminate.
  - destruct (c =? CR)%N; [discriminate|].
    destruct (c =? LF)%N; [discriminate|]. apply IH.
Qed.

Lemma specLines_CR rest line :
  specLines (CR :: rest) line =
  line :: specLines (if isChar LF (hd_error rest) then tl rest else rest) [].
Proof.
  destruct rest as [|d rest]; [reflexivity|].
  change (specLines (CR :: d :: rest) line)
    with (line :: (if (d =? LF)%N then specLines rest []
                   else specLines (d :: rest) [])).
  cbn [hd_error isChar tl]. destruct (d =? LF)%N; reflexivity.
Qed.

Lemma truthy_snoc (l : JSString) c : truthy (l ++ [c]) = true.
Proof. destruct l; reflexivity. Qed.

(** The rows produced from a loop state outside quotes, counted: one per
    line that is left, [line] being the line under construction, which is
    empty exactly when no field is pending. *)
Lemma scan_count text : forall s line,
  ~ In dquote text -> inQuote s = false ->
  truthy line = truthy (currentVal s) || (0 <? length (currentRow s))%nat ->
  length (flush (scan text s))
  = (length (rows s) + countLines (specLines text line))%nat.
Proof.
  induction text as [|c rest IH IHtl] using lookahead_ind;
    intros s line Hnq Hq Hline.
  - simpl. unfold flush, countLines. simpl. rewrite <- Hline.
    destruct (truthy line); rewrite ?length_app; simpl; lia.
  - apply not_in_cons_inv in Hnq. destruct Hnq as [Hc Hrest].
    rewrite scan_cons.
    destruct (N.eq_dec c CR) as [->|Hcr].
    + rewrite specLines_CR, body_newline by auto. cbn [fst snd].
      rewrite N.eqb_refl. simpl andb.
      rewrite countLines_cons by apply specLines_nonempty.
      destruct (isChar LF (hd_error rest)).
      * rewrite (IHtl _ []) by (auto using not_in_tl).
        simpl rows. rewrite length_app. simpl. lia.
      * rewrite (IH _ []) by auto.
        simpl rows. rewrite length_app. simpl. lia.
    + destruct (N.eq_dec c LF) as [->|Hlf].
      * rewrite body_newline by auto. cbn [fst snd].
        change (LF =? CR)%N with false. simpl andb.
        change (specLines (LF :: rest) line) with (line :: specLines rest []).
        rewrite countLines_cons by apply specLines_nonempty.
        rewrite (IH _ []) by auto.
        simpl rows. rewrite length_app. simpl. lia.
      * assert (Hspec : specLines (c :: rest) line
                        = specLines rest (line ++ [c])).
        { simpl. apply N.eqb_neq in Hcr, Hlf. rewrite Hcr, Hlf. reflexivity. }
        rewrite Hspec.
        destruct (N.eq_dec c comma) as [->|Hcm].
        -- rewrite body_comma by auto. cbn [fst snd].
           rewrite (IH _ (line ++ [comma])); auto.
           simpl. rewrite truthy_snoc, length_app. simpl.
           symmetry. apply Nat.ltb_lt. lia.
        -- rewrite body_plain by auto. cbn [fst snd].
           rewrite (IH _ (line ++ [c])); auto.
           simpl. rewrite !truthy_snoc. reflexivity.
Qed.

Lemma str_eqb_eq a : forall b, str_eqb a b = true -> a = b.
Proof.
  induction a as [|x a IH]; intros [|y b] H; simpl in H;
    try discriminate; auto.
  apply andb_true_iff in H. destruct H as [H1 H2].
  apply N.eqb_eq in H1. f_equal; auto.
Qed.

(** A record delimiter met outside quotes ends the pending row. *)
Lemma scan_delimiter d s :
  isRecordDelimiter d = true -> inQuote s = false ->
  scan d s = mkParse (rows s ++ [currentRow s ++ [currentVal s]]) [] [] false.
Proof.
  intros Hd Hq.
  assert (Hcases : d = [CR] \/ d = [LF] \/ d = [CR; LF]).
  { unfold isRecordDelimiter in Hd.
    apply orb_true_iff in Hd. destruct Hd as [Hd|Hd].
    - apply orb_true_iff in Hd.
      destruct Hd as [Hd|Hd]; apply str_eqb_eq in Hd; auto.
    - apply str_eqb_eq in Hd. auto. }
  destruct Hcases as [->|[->| ->]]; rewrite scan_cons;
    rewrite body_newline by auto; reflexivity.
Qed.

Lemma isRecordDelimiter_nonempty d : isRecordDelimiter d = true -> d <> [].
Proof. destruct d; [discriminate|discriminate]. Qed.

Lemma snoc_not_nil (A : Type) (l : list A) (x : A) : l ++ [x] <> [].
Proof. destruct l; discriminate. Qed.

Lemma body_rows_have_fields char nextChar s :
  Forall (fun row : Row => row <> []) (rows s) ->
  Forall (fun row : Row => row <> []) (rows (fst (body char nextChar s))).
Proof.
  intros H. unfold body.
  destruct (char =? dquote)%N.
  - destruct (inQuote s && isChar dquote nextChar); exact H.
  - destruct ((char =? comma)%N && negb (inQuote s)); [exact H|].
    destruct (((char =? CR)%N || (char =? LF)%N) && negb (inQuote s));
      [|exact H].
    cbn [fst rows].
    destruct ((0 <? length (currentRow s ++ [currentVal s]))%nat
              || truthy (currentVal s)); [|exact H].
    apply Forall_app. split; [exact H|].
    constructor; [apply snoc_not_nil | constructor].
Qed.

(** ** The tokenizer *)

(** C9. No row returned by parseCSV is empty: every row has at least one
    field.  The empty text gives no row.  A blank line, that is two record
    delimiters [d1] and [d2] following each other outside quotes, gives a
    row of exactly one empty field between the rows of what precedes and
    the rows of what follows. *)
Theorem parseCSV_rows_have_fields :
  (forall text, Forall (fun row : Row => row <> []) (parseCSV text)) /\
  parseCSV [] = [] /\
  (forall a d1 d2 b,
      inQuote (scan a initial) = false ->
      isRecordDelimiter d1 = true -> isRecordDelimiter d2 = true ->
      seam a d1 = true -> seam d1 d2 = true -> seam d2 b = true ->
      parseCSV (a ++ d1 ++ d2 ++ b)
      = parseCSV (a ++ d1) ++ [ [] ] :: parseCSV b).
Proof.
  split; [|split].
  - intros text. unfold parseCSV, flush.
    assert (H : Forall (fun row : Row => row <> [])
                       (rows (scan text initial))).
    { apply scan_preserves with
        (I := fun s => Forall (fun row : Row => row <> []) (rows s)).
      - intros. apply body_rows_have_fields. assumption.
      - constructor. }
    destruct (truthy (currentVal (scan text initial))
              || (0 <? length (currentRow (scan text initial)))%nat);
      [|exact H].
    apply Forall_app. split; [exact H|].
    constructor; [apply snoc_not_nil | constructor].
  - reflexivity.
  - intros a d1 d2 b Hq Hd1 Hd2 Ha H12 Hb.
    pose proof (isRecordDelimiter_nonempty d1 Hd1) as Hn1.
    pose proof (isRecordDelimiter_nonempty d2 Hd2) as Hn2.
    unfold parseCSV at 1 2.
    rewrite (scan_app a (d1 ++ d2 ++ b))
      by (rewrite seam_app_r; assumption).
    rewrite (scan_app d1 (d2 ++ b)) by (rewrite seam_app_r; assumption).
    rewrite (scan_app d2 b) by assumption.
    rewrite (scan_app a d1) by assumption.
    rewrite (scan_delimiter d1) by assumption.
    rewrite (scan_delimiter d2) by (assumption || reflexivity).
    cbn [rows currentRow currentVal app].
    rewrite flush_scan_boundary. unfold flush. simpl.
    rewrite <- app_assoc. reflexivity.
Qed.

Lemma parseCSV_rows_have_fields_witness :
  parseCSV (lit "a" ++ [CR; LF] ++ [CR] ++ lit "b,c")
  = parseCSV (lit "a" ++ [CR; LF]) ++ [ [] ] :: parseCSV (lit "b,c").
Proof.
  apply (proj2 (proj2 parseCSV_rows_have_fields)); reflexivity.
Defined.

(** C5, as amended.  A non-empty value wrapped in quotes, each quote
    character inside it doubled, is tokenized to one row of one field,
    the value itself: commas and line breaks inside it are content and a
    doubled quote stands for one quote character. *)
Theorem parseCSV_quoted_roundtrip (value : JSString) :
  value <> [] -> parseCSV (quoted value) = [[value]].
Proof.
  intros Hv. unfold parseCSV, quoted.
  rewrite scan_cons, body_quote_toggle by reflexivity. cbn [fst snd].
  rewrite scan_escaped by reflexivity.
  rewrite scan_cons, body_quote_toggle by reflexivity.
  destruct value; [congruence|]. reflexivity.
Qed.

Lemma parseCSV_quoted_roundtrip_witness :
  parseCSV (quoted (lit "a,b" ++ [dquote; LF] ++ lit "c"))
  = [[lit "a,b" ++ [dquote; LF] ++ lit "c"]].
Proof. apply parseCSV_quoted_roundtrip. discriminate. Defined.

(** C5 as stated fails at the empty value: the two quote characters that
    wrap it give no row at all. *)
Lemma parseCSV_quoted_empty :
  parseCSV (quoted []) = [] /\
  ~ (forall value : JSString, parseCSV (quoted value) = [[value]]).
Proof.
  split; [reflexivity|].
  intros H. specialize (H []). discriminate H.
Qed.

Lemma normalizeNewlines_no_CR text : ~ In CR (normalizeNewlines text).
Proof.
  induction text as [|c rest IH IHtl] using lookahead_ind.
  - simpl. auto.
  - destruct (N.eq_dec c CR) as [->|Hc].
    + rewrite normalizeNewlines_CR. simpl. intros [H|H]; [discriminate|].
      destruct (isChar LF (hd_error rest)); auto.
    + rewrite normalizeNewlines_other by assumption.
      simpl. intros [H|H]; auto.
Qed.

(** C6. On a text without quote characters, replacing every record
    delimiter by a line feed changes nothing to the rows: the normalized
    text, which has no carriage return left, is tokenized to the same
    rows as the text. *)
Theorem parseCSV_normalizeNewlines (text : JSString) :
  ~ In dquote text ->
  ~ In CR (normalizeNewlines text) /\
  parseCSV (normalizeNewlines text) = parseCSV text.
Proof.
  intros Hnq. split; [apply normalizeNewlines_no_CR|].
  unfold parseCSV. rewrite scan_normalizeNewlines; auto.
Qed.

Lemma parseCSV_normalizeNewlines_witness :
  ~ In CR (normalizeNewlines
             (lit "1,a" ++ [CR; LF] ++ lit "2,b" ++ [CR] ++ lit "3" ++ [LF])) /\
  parseCSV (normalizeNewlines
              (lit "1,a" ++ [CR; LF] ++ lit "2,b" ++ [CR] ++ lit "3" ++ [LF]))
  = parseCSV (lit "1,a" ++ [CR; LF] ++ lit "2,b" ++ [CR] ++ lit "3" ++ [LF]).
Proof.
  apply parseCSV_normalizeNewlines.
  simpl. unfold dquote. intuition discriminate.
Defined.

(** C7. On a text without quote characters the number of rows is the
    number of lines between record delimiters, a single trailing empty
    line not counted. *)
Theorem parseCSV_row_count (text : JSString) :
  ~ In dquote text -> length (parseCSV text) = specLineCount text.
Proof.
  intros Hnq. unfold parseCSV, specLineCount.
  rewrite (scan_count text initial []); auto.
Qed.

Lemma parseCSV_row_count_witness :
  length (parseCSV (lit "1,a" ++ [CR; LF] ++ lit "2,b" ++ [LF; LF]))
  = specLineCount (lit "1,a" ++ [CR; LF] ++ lit "2,b" ++ [LF; LF]).
Proof.
  apply parseCSV_row_count.
  simpl. unfold dquote. intuition discriminate.
Defined.

Lemma truthy_true_iff (s : JSString) : truthy s = true <-> s <> [].
Proof. destruct s; simpl; split; congruence. Qed.

(** The loop on a text that opens a quote after [pre] and never closes
    it. *)
Lemma scan_unterminated pre value s :
  inQuote (scan pre s) = false -> seam pre [dquote] = true ->
  scan (pre ++ dquote :: escapeQuotes value) s
  = mkParse (rows (scan pre s)) (currentRow (scan pre s))
            (currentVal (scan pre s) ++ value) true.
Proof.
  intros Hq Hseam.
  change (dquote :: escapeQuotes value)
    with ([dquote] ++ escapeQuotes value).
  rewrite scan_app by (rewrite seam_app_r; [assumption|discriminate]).
  cbn [app]. rewrite scan_cons.
  rewrite body_quote_toggle by (rewrite Hq; reflexivity). cbn [fst snd].
  rewrite <- (app_nil_r (escapeQuotes value)).
  rewrite scan_escaped by (cbn [inQuote]; rewrite Hq; reflexivity).
  reflexivity.
Qed.

Lemma glues_quote_r c : c <> dquote -> glues c dquote = false.
Proof.
  intros Hc. unfold glues. apply N.eqb_neq in Hc. rewrite Hc.
  rewrite andb_false_r. reflexivity.
Qed.

(** A text after which the loop is inside a quoted span either was
    scanned inside quotes throughout, every quote in it doubled, or has an
    opening quote that is never closed. *)
Lemma scan_ends_inside text : forall s,
  inQuote (scan text s) = true ->
  (inQuote s = true /\ exists value, text = escapeQuotes value) \/
  (exists pre value,
      text = pre ++ dquote :: escapeQuotes value /\
      inQuote (scan pre s) = false /\ seam pre [dquote] = true).
Proof.
  induction text as [|c rest IH IHtl] using lookahead_ind; intros s H.
  - left. split; [exact H | exists []; reflexivity].
  - rewrite scan_cons in H.
    destruct (snd (body c (hd_error rest) s)) eqn:Eskip.
    + (* the round consumed two characters *)
      destruct rest as [|n rest];
        [rewrite body_no_skip_at_end in Eskip; discriminate|].
      cbn [hd_error tl] in *.
      pose proof (body_skip_glues c n s Eskip) as Hg.
      unfold glues in Hg. apply orb_true_iff in Hg.
      destruct Hg as [Hg|Hg]; apply andb_true_iff in Hg;
        destruct Hg as [Hc Hn]; apply N.eqb_eq in Hc, Hn; subst c n.
      * destruct (inQuote s) eqn:Eq.
        2:{ rewrite body_quote_toggle in Eskip by (rewrite Eq; reflexivity).
            discriminate Eskip. }
        rewrite body_quote_escaped in H by (auto; apply N.eqb_refl).
        cbn [fst] in H.
        destruct (IHtl _ H) as [[_ (value & ->)]|(pre & value & -> & Hq & Hs)].
        -- left. split; [reflexivity|]. exists (dquote :: value).
           rewrite escapeQuotes_quote. reflexivity.
        -- right. exists (dquote :: dquote :: pre), value.
           destruct pre as [|e pre]; [discriminate Hq|].
           split; [reflexivity|]. split.
           ++ rewrite scan_cons. cbn [hd_error tl].
              rewrite body_quote_escaped by (auto; apply N.eqb_refl).
              exact Hq.
           ++ rewrite !seam_cons. exact Hs.
      * destruct (inQuote s) eqn:Eq.
        { rewrite body_inside in Eskip by (auto; discriminate).
          discriminate Eskip. }
        rewrite body_newline in H by auto. cbn [fst] in H.
        destruct (IHtl _ H) as [[Hq' _]|(pre & value & -> & Hq & Hs)];
          [discriminate Hq'|].
        right. exists (CR :: LF :: pre), value.
        split; [reflexivity|]. split.
        -- rewrite scan_cons. cbn [hd_error tl].
           rewrite body_newline by auto. exact Hq.
        -- destruct pre as [|e pre]; [reflexivity|].
           rewrite !seam_cons. exact Hs.
    + (* the round consumed one character *)
      destruct (IH _ H)
        as [[Hq' (value & Hrest)]|(pre & value & Hrest & Hq & Hs)].
      * destruct (N.eq_dec c dquote) as [->|Hc].
        -- destruct (inQuote s) eqn:Eq.
           ++ exfalso.
              destruct (isChar dquote (hd_error rest)) eqn:En.
              ** rewrite body_quote_escaped in Eskip by auto.
                 discriminate Eskip.
              ** rewrite body_quote_toggle in Hq'
                   by (rewrite Eq, En; reflexivity).
                 cbn in Hq'. rewrite Eq in Hq'. discriminate Hq'.
           ++ right. exists [], value. subst rest.
              split; [reflexivity|]. split; [exact Eq | reflexivity].
        -- destruct (inQuote s) eqn:Eq.
           ++ left. split; [reflexivity|]. exists (c :: value).
              rewrite escapeQuotes_other by assumption. subst rest.
              reflexivity.
           ++ rewrite body_outside_inQuote in Hq' by assumption.
              discriminate Hq'.
      * right. exists (c :: pre), value. subst rest.
        split; [reflexivity|].
        destruct pre as [|e pre].
        -- cbn [app hd_error] in *.
           assert (Hc : c <> dquote).
           { intros ->. destruct (inQuote s) eqn:Eq.
             - rewrite body_quote_escaped in Eskip
                 by (auto; apply N.eqb_refl).
               discriminate Eskip.
             - rewrite body_quote_toggle in Hq by (rewrite Eq; reflexivity).
               cbn in Hq. rewrite Eq in Hq. discriminate Hq. }
           rewrite body_lookahead in Hq by (apply glues_quote_r; exact Hc).
           split.
           ++ rewrite scan_cons. cbn [hd_error].
              rewrite body_no_skip_at_end. exact Hq.
           ++ unfold seam. cbn. rewrite glues_quote_r by exact Hc.
              reflexivity.
        -- cbn [app hd_error] in *. split.
           ++ rewrite scan_cons. cbn [hd_error]. rewrite Eskip. exact Hq.
           ++ rewrite seam_cons. exact Hs.
Qed.

Lemma parseCSV_open_quote (pre value : JSString) :
  inQuote (scan pre initial) = false ->
  seam pre [dquote] = true ->
  value <> [] \/ currentVal (scan pre initial) <> []
              \/ currentRow (scan pre initial) <> [] ->
  parseCSV (pre ++ dquote :: escapeQuotes value)
  = rows (scan pre initial)
    ++ [currentRow (scan pre initial)
        ++ [currentVal (scan pre initial) ++ value]].
Proof.
  intros Hq Hseam Hpending. unfold parseCSV.
  rewrite scan_unterminated by assumption.
  unfold flush. cbn [rows currentRow currentVal].
  replace (truthy (currentVal (scan pre initial) ++ value)
           || (0 <? length (currentRow (scan pre initial)))%nat) with true;
    [reflexivity|].
  symmetry. apply orb_true_iff.
  destruct Hpending as [H|[H|H]].
  - left. apply truthy_true_iff. intros E. apply app_eq_nil in E. tauto.
  - left. apply truthy_true_iff. intros E. apply app_eq_nil in E. tauto.
  - right. apply Nat.ltb_lt.
    destruct (currentRow (scan pre initial)); [congruence|simpl; lia].
Qed.

(** C8, as amended.  Tokenizing completes on every text ([parseCSV] is
    total).  A text that ends inside a quoted span consists of a part
    [pre] scanned outside quotes, the opening quote, and a rest in which
    every quote character is doubled.  For every text of that shape, when
    the rest is not empty, or a field or a row is pending at the opening
    quote, the last field of the last row is the field pending at the
    opening quote followed by the rest, its commas and line breaks kept as
    they are and each doubled quote read as one quote character. *)
Theorem parseCSV_unterminated_quote :
  (forall text,
      inQuote (scan text initial) = true ->
      exists pre value,
        text = pre ++ dquote :: escapeQuotes value /\
        inQuote (scan pre initial) = false /\
        seam pre [dquote] = true) /\
  (forall pre value,
      inQuote (scan pre initial) = false ->
      seam pre [dquote] = true ->
      value <> [] \/ currentVal (scan pre initial) <> []
                  \/ currentRow (scan pre initial) <> [] ->
      inQuote (scan (pre ++ dquote :: escapeQuotes value) initial) = true /\
      parseCSV (pre ++ dquote :: escapeQuotes value)
      = rows (scan pre initial)
        ++ [currentRow (scan pre initial)
            ++ [currentVal (scan pre initial) ++ value]]).
Proof.
  split.
  - intros text H.
    destruct (scan_ends_inside text initial H) as [[Hq _]|Hdec];
      [discriminate Hq | exact Hdec].
  - intros pre value Hq Hseam Hpending. split.
    + rewrite scan_unterminated by assumption. reflexivity.
    + apply parseCSV_open_quote; assumption.
Qed.

Lemma parseCSV_unterminated_quote_witness :
  inQuote (scan (lit "1,ab" ++ dquote
                   :: escapeQuotes (lit "cd,e" ++ [LF; dquote] ++ lit "f"))
                initial) = true /\
  parseCSV (lit "1,ab" ++ dquote
              :: escapeQuotes (lit "cd,e" ++ [LF; dquote] ++ lit "f"))
  = [[lit "1"; lit "ab" ++ lit "cd,e" ++ [LF; dquote] ++ lit "f"]].
Proof.
  apply (proj2 parseCSV_unterminated_quote
           (lit "1,ab") (lit "cd,e" ++ [LF; dquote] ++ lit "f")).
  - reflexivity.
  - reflexivity.
  - left. discriminate.
Defined.

(** C8 as stated fails on the text made of one quote character: it ends
    inside a quoted span, and no row is returned, so that there is no last
    field.  It also fails when the rest holds a doubled quote, which is
    returned as one quote character and not as it stands. *)
Lemma parseCSV_lone_quote :
  inQuote (scan [dquote] initial) = true /\
  parseCSV [dquote] = [] /\
  parseCSV (dquote :: lit "a" ++ [dquote; dquote] ++ lit "b")
  = [[lit "a" ++ [dquote] ++ lit "b"]] /\
  ~ (forall pre rest : JSString,
        inQuote (scan pre initial) = false ->
        seam pre [dquote] = true ->
        ~ In dquote rest ->
        exists done row field,
          parseCSV (pre ++ dquote :: rest) = done ++ [row ++ [field ++ rest]]).
Proof.
  split; [reflexivity|]. split; [reflexivity|]. split; [reflexivity|].
  intros H.
  destruct (H [] []) as (done & row & field & E);
    try reflexivity; [simpl; tauto|].
  change (parseCSV ([] ++ [dquote])) with (@nil Row) in E.
  symmetry in E. apply app_eq_nil in E. destruct E as [_ E]. discriminate E.
Qed.

(** ** From rows to pages *)

Lemma addRow_titleContent newOutline cols :
  map titleContent (addRow newOutline cols)
  = map titleContent newOutline
    ++ (if accepted cols
        then [(trim (titleOf cols), trim (contentOf cols))] else []).
Proof.
  unfold addRow, accepted.
  destruct (truthy (titleOf cols) || truthy (contentOf cols)).
  - rewrite map_app. reflexivity.
  - rewrite app_nil_r. reflexivity.
Qed.

Lemma fold_addRow_titleContent dataRows : forall newOutline,
  map titleContent (fold_left addRow dataRows newOutline)
  = map titleContent newOutline
    ++ map (fun cols => (trim (titleOf cols), trim (contentOf cols)))
           (filter accepted dataRows).
Proof.
  induction dataRows as [|cols dataRows IH]; intros newOutline; simpl.
  - rewrite app_nil_r. reflexivity.
  - rewrite IH, addRow_titleContent, <- app_assoc.
    destruct (accepted cols); reflexivity.
Qed.

Lemma truthyNum_position n : truthyNum (Num (Z.of_nat n + 1)) = true.
Proof. simpl. apply negb_true_iff. apply Z.eqb_neq. lia. Qed.

Lemma addRow_pageAt newOutline cols :
  addRow newOutline cols
  = newOutline
    ++ (if accepted cols then [pageAt (length newOutline) cols] else []).
Proof.
  unfold addRow, accepted.
  destruct (truthy (titleOf cols) || truthy (contentOf cols));
    [|rewrite app_nil_r; reflexivity].
  unfold pageAt, pageNumOf.
  destruct cols as [|c0 [|c1 [|c2 cols]]]; reflexivity.
Qed.

(** The loop pushes one page per accepted row, in order. *)
Lemma fold_addRow_pagesFrom dataRows : forall newOutline,
  fold_left addRow dataRows newOutline
  = newOutline ++ pagesFrom (length newOutline) (filter accepted dataRows).
Proof.
  induction dataRows as [|cols dataRows IH]; intros newOutline; simpl.
  - rewrite app_nil_r. reflexivity.
  - rewrite IH, addRow_pageAt.
    destruct (accepted cols).
    + rewrite length_app, Nat.add_1_r, <- app_assoc. reflexivity.
    + rewrite app_nil_r. reflexivity.
Qed.

Lemma pagesFrom_length acceptedRows : forall k,
  length (pagesFrom k acceptedRows) = length acceptedRows.
Proof.
  induction acceptedRows as [|cols more IH]; intros k; simpl; auto.
Qed.

Lemma pagesFrom_nth acceptedRows : forall k0 k cols,
  nth_error acceptedRows k = Some cols ->
  nth_error (pagesFrom k0 acceptedRows) k = Some (pageAt (k0 + k) cols).
Proof.
  induction acceptedRows as [|c more IH]; intros k0 [|k] cols H; simpl in H;
    try discriminate.
  - injection H as ->. simpl. rewrite Nat.add_0_r. reflexivity.
  - simpl. rewrite (IH (S k0) k cols H).
    replace (S k0 + k)%nat with (k0 + S k)%nat by lia. reflexivity.
Qed.

Lemma pageAt_pageOfRow k cols : pageOfRow k cols (pageAt k cols).
Proof.
  unfold pageOfRow, pageAt. cbn [pageNumber title content].
  split; [reflexivity|]. split; [reflexivity|].
  destruct cols as [|c0 [|c1 [|c2 cols]]];
    try (split; [apply truthyNum_position | reflexivity]).
  unfold orElse. destruct (truthyNum (parseInt c0)) eqn:E.
  - split; [exact E|]. split; [reflexivity | discriminate].
  - split; [apply truthyNum_position|]. split; [discriminate | reflexivity].
Qed.

Lemma In_skipn (A : Type) (n : nat) (l : list A) (x : A) :
  In x (skipn n l) -> In x l.
Proof.
  revert l. induction n as [|n IH]; intros l; simpl; auto.
  destruct l; simpl; auto.
Qed.

Section IngestionFacts.

Variable toLowerCase : JSString -> JSString.

Lemma buildOutline_normal rows pages :
  buildOutline toLowerCase rows = Normal pages ->
  exists startIndex,
    startIndexOf toLowerCase (nth_error rows 0) = Normal startIndex /\
    pages = fold_left addRow (skipn startIndex rows) [].
Proof.
  unfold buildOutline.
  destruct (startIndexOf toLowerCase (nth_error rows 0)) as [n|e];
    [|discriminate].
  intros H. injection H as <-. exists n. auto.
Qed.

(** C1, as amended.  The pages of the outline are, in order, the data
    rows whose title or content is a non-empty string as read from the
    row, before trimming; the page holds the two strings trimmed.  So a
    row whose title and content are both the empty string gives no page,
    and nothing is said about how a row of white space only looks after
    trimming. *)
Theorem buildOutline_accepts_nonempty (rows : list Row)
        (pages : list PresentationPage) :
  buildOutline toLowerCase rows = Normal pages ->
  exists startIndex,
    startIndexOf toLowerCase (nth_error rows 0) = Normal startIndex /\
    map titleContent pages
    = map (fun cols => (trim (titleOf cols), trim (contentOf cols)))
          (filter accepted (skipn startIndex rows)).
Proof.
  intros H. apply buildOutline_normal in H.
  destruct H as (n & Hn & ->). exists n. split; [exact Hn|].
  rewrite fold_addRow_titleContent. reflexivity.
Qed.

(** C3, as amended.  The outline has one page per accepted data row, in
    order.  The page made from the accepted row number [k], counted from
    0, holds the title and content of that row and a truthy number,
    neither NaN nor zero: when the row has three fields or more, the
    number parseInt reads in its first field if that is truthy, be it
    negative or infinite, and [k+1], its position among the accepted
    pages, otherwise; when the row is shorter, the number [k+1]. *)
Theorem buildOutline_pageNumber (rows : list Row)
        (pages : list PresentationPage) :
  buildOutline toLowerCase rows = Normal pages ->
  exists startIndex,
    startIndexOf toLowerCase (nth_error rows 0) = Normal startIndex /\
    length pages = length (filter accepted (skipn startIndex rows)) /\
    forall k cols,
      nth_error (filter accepted (skipn startIndex rows)) k = Some cols ->
      exists p, nth_error pages k = Some p /\ pageOfRow k cols p.
Proof.
  intros H. apply buildOutline_normal in H.
  destruct H as (n & Hn & ->). exists n. split; [exact Hn|].
  rewrite fold_addRow_pagesFrom. cbn [app length].
  split; [apply pagesFrom_length|].
  intros k cols Hk. exists (pageAt k cols). split.
  - apply (pagesFrom_nth _ 0 k cols Hk).
  - apply pageAt_pageOfRow.
Qed.

(** A first row of one field that does not hold a slide marker makes
    the header test fail with a TypeError: [header[1]] is undefined. *)
Lemma startIndexOf_single_field (field : JSString) :
  includes (toLowerCase field) markerSlide = false ->
  includes (toLowerCase field) (lit "slide") = false ->
  startIndexOf toLowerCase (Some [field]) = Throw TypeError.
Proof.
  intros H1 H2. unfold startIndexOf, includesAt. cbn [map nth_error].
  rewrite H1. cbn [orC]. rewrite H2. reflexivity.
Qed.

(** The header test on a first row of two fields or more. *)
Lemma startIndexOf_two_fields (f0 f1 : JSString) (more : Row) :
  startIndexOf toLowerCase (Some (f0 :: f1 :: more))
  = Normal
      (if includes (toLowerCase f0) markerSlide
          || includes (toLowerCase f0) (lit "slide")
          || includes (toLowerCase f1) markerTitle
          || includes (toLowerCase f1) (lit "title")
       then 1%nat else 0%nat).
Proof.
  unfold startIndexOf, includesAt. cbn [map nth_error].
  destruct (includes (toLowerCase f0) markerSlide); [reflexivity|].
  destruct (includes (toLowerCase f0) (lit "slide")); [reflexivity|].
  destruct (includes (toLowerCase f1) markerTitle); [reflexivity|].
  destruct (includes (toLowerCase f1) (lit "title")); reflexivity.
Qed.

(** The handler never changes the state unless it installs a non-empty
    outline. *)
Lemma onload_state prev text :
  fst (onload toLowerCase prev text) = prev \/
  exists p ps, buildOutline toLowerCase (parseCSV text) = Normal (p :: ps).
Proof.
  unfold onload.
  destruct (negb (truthy text)); [left; reflexivity|].
  destruct (length (parseCSV text) =? 0)%nat; [left; reflexivity|].
  destruct (buildOutline toLowerCase (parseCSV text)) as [[|p ps]|e].
  - left. reflexivity.
  - right. exists p, ps. reflexivity.
  - left. reflexivity.
Qed.

(** C4, as amended.  When no page is accepted from the text, the
    handler leaves the application state as it was, the outline, the
    image count and the step included.  If moreover the text has at
    least one row and the loop over the rows ends normally, the handler
    shows the message that no valid data was found, and only that; if
    the text has no row, the handler shows nothing. *)
Theorem onload_no_page_accepted (prev : AppState) (text : JSString) :
  acceptedPages toLowerCase text = [] ->
  fst (onload toLowerCase prev text) = prev /\
  (parseCSV text <> [] ->
   buildOutline toLowerCase (parseCSV text) = Normal [] ->
   onload toLowerCase prev text = (prev, [Alert msgNoValidData])) /\
  (parseCSV text = [] -> onload toLowerCase prev text = (prev, [])).
Proof.
  intros Hacc. split; [|split].
  - destruct (onload_state prev text) as [H|(p & ps & H)]; [exact H|].
    unfold acceptedPages in Hacc. rewrite H in Hacc. discriminate Hacc.
  - intros Hrows Hbuild. unfold onload.
    destruct text as [|c text]; [exfalso; apply Hrows; reflexivity|].
    cbn [truthy negb].
    destruct (parseCSV (c :: text)) as [|row rows'] eqn:E;
      [congruence|].
    cbn [length Nat.eqb]. rewrite Hbuild. reflexivity.
  - intros Hrows. unfold onload.
    destruct (negb (truthy text)); [reflexivity|].
    rewrite Hrows. reflexivity.
Qed.

(** C10. On the empty text the handler returns at once: the state is
    unchanged and nothing is shown, neither message nor console entry. *)
Theorem onload_empty_text (prev : AppState) :
  onload toLowerCase prev [] = (prev, []) /\
  handleCsvUpload toLowerCase prev (Some []) = (prev, []).
Proof. split; reflexivity. Qed.

End IngestionFacts.

(** ** The handler on concrete texts *)

Example outline_with_header :
  buildOutline toLowerCaseLatin
    [[markerSlide ++ [30058; 21495]%N; markerTitle; [26412; 25991]%N];
     [lit "1"; lit "Intro"; lit "Welcome"]]
  = Normal [mkPage (Num 1) (lit "Intro") (lit "Welcome") [] [] []].
Proof. reflexivity. Qed.

Example outline_two_columns :
  buildOutline toLowerCaseLatin [[lit "A"; lit "B"]; [lit "C"; lit "D"]]
  = Normal [mkPage (Num 1) (lit "A") (lit "B") [] [] [];
            mkPage (Num 2) (lit "C") (lit "D") [] [] []].
Proof. reflexivity. Qed.

Example outline_explicit_number :
  buildOutline toLowerCaseLatin [[lit "5"; lit "Foo"; lit "Bar"]]
  = Normal [mkPage (Num 5) (lit "Foo") (lit "Bar") [] [] []].
Proof. reflexivity. Qed.

Example upload_installs_outline :
  onload toLowerCaseLatin INITIAL_STATE
         (lit "Slide,Title,Body" ++ [CR; LF] ++ lit "1,Intro, Welcome " ++ [LF])
  = (install [mkPage (Num 1) (lit "Intro") (lit "Welcome") [] [] []]
             INITIAL_STATE, []).
Proof. reflexivity. Qed.

Lemma buildOutline_accepts_nonempty_witness :
  exists startIndex,
    startIndexOf toLowerCaseLatin
      (nth_error [[lit "A"; lit "B"]; [[]; []]; [lit " "; lit "D "]] 0)
    = Normal startIndex /\
    map titleContent
        [mkPage (Num 1) (lit "A") (lit "B") [] [] [];
         mkPage (Num 2) [] (lit "D") [] [] []]
    = map (fun cols => (trim (titleOf cols), trim (contentOf cols)))
          (filter accepted
             (skipn startIndex
                [[lit "A"; lit "B"]; [[]; []]; [lit " "; lit "D "]])).
Proof.
  apply (buildOutline_accepts_nonempty toLowerCaseLatin
           [[lit "A"; lit "B"]; [[]; []]; [lit " "; lit "D "]]).
  reflexivity.
Defined.

(** C1 as stated fails on a row of two fields holding one space each:
    the row is accepted, and its page has an empty title and an empty
    content. *)
Lemma buildOutline_blank_row_accepted :
  buildOutline toLowerCaseLatin [[lit " "; lit " "]]
  = Normal [mkPage (Num 1) [] [] [] [] []] /\
  ~ (forall rows pages,
        buildOutline toLowerCaseLatin rows = Normal pages ->
        Forall (fun p => title p <> [] \/ content p <> []) pages).
Proof.
  split; [reflexivity|].
  intros H.
  specialize (H [[lit " "; lit " "]] _ eq_refl).
  apply Forall_inv in H. simpl in H. destruct H as [H|H]; apply H; reflexivity.
Qed.

Lemma buildOutline_pageNumber_witness :
  exists startIndex,
    startIndexOf toLowerCaseLatin
      (nth_error [[lit "Slide"; lit "Title"; lit "Body"];
                  [lit "-3"; lit "Foo"; lit "Bar"];
                  [lit "9"; []; []];
                  [lit "x"; lit "T"; lit "C"];
                  [lit "5"; lit "U"; lit "D"]] 0)
    = Normal startIndex /\
    length [mkPage (Num (-3)) (lit "Foo") (lit "Bar") [] [] [];
            mkPage (Num 2) (lit "T") (lit "C") [] [] [];
            mkPage (Num 5) (lit "U") (lit "D") [] [] []]
    = length (filter accepted
                (skipn startIndex
                   [[lit "Slide"; lit "Title"; lit "Body"];
                    [lit "-3"; lit "Foo"; lit "Bar"];
                    [lit "9"; []; []];
                    [lit "x"; lit "T"; lit "C"];
                    [lit "5"; lit "U"; lit "D"]])) /\
    forall k cols,
      nth_error
        (filter accepted
           (skipn startIndex
              [[lit "Slide"; lit "Title"; lit "Body"];
               [lit "-3"; lit "Foo"; lit "Bar"];
               [lit "9"; []; []];
               [lit "x"; lit "T"; lit "C"];
               [lit "5"; lit "U"; lit "D"]])) k = Some cols ->
      exists p,
        nth_error [mkPage (Num (-3)) (lit "Foo") (lit "Bar") [] [] [];
                   mkPage (Num 2) (lit "T") (lit "C") [] [] [];
                   mkPage (Num 5) (lit "U") (lit "D") [] [] []] k = Some p /\
        pageOfRow k cols p.
Proof.
  apply (buildOutline_pageNumber toLowerCaseLatin
           [[lit "Slide"; lit "Title"; lit "Body"];
            [lit "-3"; lit "Foo"; lit "Bar"];
            [lit "9"; []; []];
            [lit "x"; lit "T"; lit "C"];
            [lit "5"; lit "U"; lit "D"]]).
  reflexivity.
Defined.

(** C3 as stated fails on a row whose first field reads as a negative
    number: the page takes that number, it is neither positive nor
    replaced by the position. *)
Lemma buildOutline_negative_pageNumber :
  buildOutline toLowerCaseLatin [[lit "-3"; lit "Foo"; lit "Bar"]]
  = Normal [mkPage (Num (-3)) (lit "Foo") (lit "Bar") [] [] []] /\
  ~ (forall rows pages p,
        buildOutline toLowerCaseLatin rows = Normal pages ->
        In p pages ->
        exists z, pageNumber p = Num z /\ (0 < z)%Z).
Proof.
  split; [reflexivity|].
  intros H.
  destruct (H [[lit "-3"; lit "Foo"; lit "Bar"]] _
              (mkPage (Num (-3)) (lit "Foo") (lit "Bar") [] [] [])
              eq_refl (or_introl eq_refl)) as (z & Hz & Hpos).
  simpl in Hz. injection Hz as <-. lia.
Qed.

(** C2: the header test on the failing inputs.  A text of one line without
    a comma, which is a first row of one field, ends in the TypeError of
    [header[1].includes], caught by the handler and shown as a failure to
    read the file; and a first row whose first field is No is not taken
    for a header, it becomes a page. *)
Theorem header_test_failures :
  buildOutline toLowerCaseLatin [[lit "Only content line"]] = Throw TypeError /\
  (forall prev,
      onload toLowerCaseLatin prev (lit "Only content line")
      = (prev, [ConsoleError TypeError; Alert msgLoadFailed])) /\
  buildOutline toLowerCaseLatin
    [[lit "No"; lit "Name"]; [lit "1"; lit "Intro"; lit "Welcome"]]
  = Normal [mkPage (Num 1) (lit "No") (lit "Name") [] [] [];
            mkPage (Num 1) (lit "Intro") (lit "Welcome") [] [] []].
Proof. repeat split. Qed.

Lemma onload_no_page_accepted_witness :
  fst (onload toLowerCaseLatin INITIAL_STATE (lit ",")) = INITIAL_STATE /\
  onload toLowerCaseLatin INITIAL_STATE (lit ",")
  = (INITIAL_STATE, [Alert msgNoValidData]).
Proof.
  destruct (onload_no_page_accepted toLowerCaseLatin INITIAL_STATE (lit ",")
              eq_refl) as (H1 & H2 & _).
  split; [exact H1|]. apply H2; [discriminate | reflexivity].
Defined.

(** C4 as stated fails on the text made of two quote characters: it is
    not empty, it has no row, so that no page is accepted, and the handler
    returns without showing any message. *)
Lemma onload_no_rows_silent :
  parseCSV [dquote; dquote] = [] /\
  acceptedPages toLowerCaseLatin [dquote; dquote] = [] /\
  onload toLowerCaseLatin INITIAL_STATE [dquote; dquote]
  = (INITIAL_STATE, []) /\
  ~ (forall prev text,
        text <> [] ->
        acceptedPages toLowerCaseLatin text = [] ->
        exists message,
          In (Alert message) (snd (onload toLowerCaseLatin prev text))).
Proof.
  repeat split.
  intros H.
  destruct (H INITIAL_STATE [dquote; dquote]) as (message & Hin);
    [discriminate | reflexivity | exact Hin].
Qed.

(** ** More on the tokenizer *)

Lemma dropTrailingEmpty_cons line ls :
  ls <> [] -> dropTrailingEmpty (line :: ls) = line :: dropTrailingEmpty ls.
Proof.
  intros Hls. unfold dropTrailingEmpty. destruct ls as [|l ls]; [congruence|].
  change (last (line :: l :: ls) []) with (last (l :: ls) []).
  destruct (truthy (last (l :: ls) [])); reflexivity.
Qed.

Lemma fieldsOf_plain c rest field :
  c <> comma -> fieldsOf (c :: rest) field = fieldsOf rest (field ++ [c]).
Proof. intros Hc. simpl. apply N.eqb_neq in Hc. rewrite Hc. reflexivity. Qed.

Lemma tracks_pending s line :
  tracks s line -> fieldsOf line [] = currentRow s ++ [currentVal s].
Proof. intros H. specialize (H []). rewrite app_nil_r in H. exact H. Qed.

Lemma scan_lines text : forall s line,
  ~ In dquote text -> inQuote s = false ->
  truthy line = truthy (currentVal s) || (0 <? length (currentRow s))%nat ->
  tracks s line ->
  flush (scan text s)
  = rows s ++ map (fun l => fieldsOf l [])
                  (dropTrailingEmpty (specLines text line)).
Proof.
  induction text as [|c rest IH IHtl] using lookahead_ind;
    intros s line Hnq Hq Hline Htr.
  - simpl. unfold flush, dropTrailingEmpty. simpl. rewrite <- Hline.
    destruct (truthy line); simpl.
    + rewrite (tracks_pending s line Htr). reflexivity.
    + rewrite app_nil_r. reflexivity.
  - apply not_in_cons_inv in Hnq. destruct Hnq as [Hc Hrest].
    rewrite scan_cons.
    assert (Hnl : forall text',
               ~ In dquote text' ->
               (forall s' line',
                   ~ In dquote text' -> inQuote s' = false ->
                   truthy line' = truthy (currentVal s')
                                  || (0 <? length (currentRow s'))%nat ->
                   tracks s' line' ->
                   flush (scan text' s')
                   = rows s'
                     ++ map (fun l => fieldsOf l [])
                            (dropTrailingEmpty (specLines text' line'))) ->
               flush (scan text'
                        (mkParse (rows s ++ [currentRow s ++ [currentVal s]])
                                 [] [] false))
               = rows s
                 ++ map (fun l => fieldsOf l [])
                        (line :: dropTrailingEmpty (specLines text' []))).
    { intros text' Hq' Hind. rewrite (Hind _ []); auto.
      - cbn [rows map]. rewrite (tracks_pending s line Htr), <- app_assoc.
        reflexivity.
      - intros tail. reflexivity. }
    destruct (N.eq_dec c CR) as [->|Hcr].
    + rewrite specLines_CR, body_newline by auto. cbn [fst snd].
      rewrite N.eqb_refl. simpl andb.
      rewrite dropTrailingEmpty_cons by apply specLines_nonempty.
      destruct (isChar LF (hd_error rest)).
      * apply Hnl; auto using not_in_tl.
      * apply Hnl; auto.
    + destruct (N.eq_dec c LF) as [->|Hlf].
      * rewrite body_newline by auto. cbn [fst snd].
        change (LF =? CR)%N with false. simpl andb.
        change (specLines (LF :: rest) line) with (line :: specLines rest []).
        rewrite dropTrailingEmpty_cons by apply specLines_nonempty.
        apply Hnl; auto.
      * assert (Hspec : specLines (c :: rest) line
                        = specLines rest (line ++ [c])).
        { simpl. apply N.eqb_neq in Hcr, Hlf. rewrite Hcr, Hlf. reflexivity. }
        rewrite Hspec.
        destruct (N.eq_dec c comma) as [->|Hcm].
        -- rewrite body_comma by auto. cbn [fst snd].
           rewrite (IH _ (line ++ [comma])); auto.
           ++ simpl. rewrite truthy_snoc, length_app. simpl.
              symmetry. apply Nat.ltb_lt. lia.
           ++ intros tail. cbn [currentRow currentVal].
              rewrite <- app_assoc. cbn [app]. rewrite (Htr (comma :: tail)).
              simpl. rewrite <- app_assoc. reflexivity.
        -- rewrite body_plain by auto. cbn [fst snd].
           rewrite (IH _ (line ++ [c])); auto.
           ++ simpl. rewrite !truthy_snoc. reflexivity.
           ++ intros tail. cbn [currentRow currentVal].
              rewrite <- app_assoc. cbn [app]. rewrite (Htr (c :: tail)).
              rewrite fieldsOf_plain by assumption. reflexivity.
Qed.

(** X1. On a text without quote characters parseCSV is the plain
    splitting: the lines between record delimiters, a single trailing
    empty line left out, each cut into fields at its commas. *)
Theorem parseCSV_plain_text (text : JSString) :
  ~ In dquote text ->
  parseCSV text
  = map (fun line => fieldsOf line [])
        (dropTrailingEmpty (specLines text [])).
Proof.
  intros Hnq. unfold parseCSV.
  rewrite (scan_lines text initial []); auto.
  intros tail. reflexivity.
Qed.

Lemma parseCSV_plain_text_witness :
  parseCSV (lit "1,a,," ++ [CR; LF] ++ lit "2 b" ++ [LF; LF])
  = [[lit "1"; lit "a"; []; []]; [lit "2 b"]; [[]]].
Proof.
  rewrite parseCSV_plain_text; [reflexivity|].
  simpl. unfold dquote. intuition discriminate.
Defined.

(** A quoted field met outside quotes is appended to the pending field,
    unless a quote character follows its closing quote. *)
Lemma scan_quoted value rest s :
  inQuote s = false -> isChar dquote (hd_error rest) = false ->
  scan (quoted value ++ rest) s
  = scan rest (mkParse (rows s) (currentRow s) (currentVal s ++ value) false).
Proof.
  intros Hq Hrest. unfold quoted.
  rewrite <- app_comm_cons, scan_cons.
  rewrite body_quote_toggle by (rewrite Hq; reflexivity). cbn [fst snd].
  rewrite <- app_assoc, scan_escaped by (cbn; rewrite Hq; reflexivity).
  cbn [app rows currentRow currentVal]. rewrite scan_cons.
  rewrite body_quote_toggle by (cbn [inQuote]; rewrite Hrest; reflexivity).
  reflexivity.
Qed.

Lemma isRecordDelimiter_cases d :
  isRecordDelimiter d = true -> d = [CR] \/ d = [LF] \/ d = [CR; LF].
Proof.
  intros Hd. unfold isRecordDelimiter in Hd.
  apply orb_true_iff in Hd. destruct Hd as [Hd|Hd].
  - apply orb_true_iff in Hd.
    destruct Hd as [Hd|Hd]; apply str_eqb_eq in Hd; auto.
  - apply str_eqb_eq in Hd. auto.
Qed.

Lemma delimiter_head d rest :
  isRecordDelimiter d = true -> isChar dquote (hd_error (d ++ rest)) = false.
Proof.
  intros Hd. destruct (isRecordDelimiter_cases d Hd) as [->|[->| ->]];
    reflexivity.
Qed.

(** The loop over one written row. *)
Lemma scan_joinQuoted eol rest fields : forall s,
  fields <> [] -> isRecordDelimiter eol = true -> seam eol rest = true ->
  inQuote s = false -> currentVal s = [] ->
  scan (joinQuoted fields ++ eol ++ rest) s
  = scan rest (mkParse (rows s ++ [currentRow s ++ fields]) [] [] false).
Proof.
  induction fields as [|field more IH]; intros s Hne Heol Hseam Hq Hval;
    [congruence|].
  destruct more as [|field' more].
  - cbn [joinQuoted].
    rewrite scan_quoted by (assumption || (apply delimiter_head; assumption)).
    rewrite scan_app by assumption.
    rewrite (scan_delimiter eol) by (assumption || reflexivity).
    cbn [rows currentRow currentVal]. rewrite Hval. reflexivity.
  - change (joinQuoted (field :: field' :: more))
      with (quoted field ++ comma :: joinQuoted (field' :: more)).
    rewrite <- app_assoc, scan_quoted by (assumption || reflexivity).
    rewrite <- app_comm_cons, scan_cons, body_comma by reflexivity.
    cbn [fst snd]. rewrite IH; try (assumption || reflexivity || discriminate).
    cbn [rows currentRow currentVal]. rewrite Hval, <- app_assoc.
    reflexivity.
Qed.

Lemma writeRows_seam eol rows :
  isRecordDelimiter eol = true ->
  Forall (fun row : Row => row <> []) rows ->
  seam eol (writeRows eol rows) = true.
Proof.
  intros Heol Hrows.
  destruct rows as [|row rows]; simpl.
  - destruct (isRecordDelimiter_cases eol Heol) as [->|[->| ->]];
      reflexivity.
  - apply Forall_inv in Hrows.
    destruct row as [|field [|field' more]]; [congruence| |];
      destruct (isRecordDelimiter_cases eol Heol) as [->|[->| ->]];
      reflexivity.
Qed.

Lemma scan_writeRows eol written :
  isRecordDelimiter eol = true ->
  Forall (fun row : Row => row <> []) written ->
  forall done,
    flush (scan (writeRows eol written) (mkParse done [] [] false))
    = done ++ written.
Proof.
  intros Heol Hrows.
  induction Hrows as [|row written Hrow Hrows IH]; intros done.
  - unfold flush. simpl. rewrite app_nil_r. reflexivity.
  - change (writeRows eol (row :: written))
      with ((joinQuoted row ++ eol) ++ writeRows eol written).
    rewrite <- app_assoc.
    rewrite scan_joinQuoted;
      try (assumption || reflexivity || (apply writeRows_seam; assumption)).
    cbn [rows currentRow app]. rewrite IH. rewrite <- app_assoc. reflexivity.
Qed.

(** X2. Reading back what a standard CSV writer wrote: rows of one field
    or more, every field wrapped in quotes with its quote characters
    doubled, the fields of a row joined by commas and every row ended by
    the same record delimiter, are tokenized to exactly these rows,
    whatever the fields contain. *)
Theorem parseCSV_writeRows (eol : JSString) (rows : list Row) :
  isRecordDelimiter eol = true ->
  Forall (fun row : Row => row <> []) rows ->
  parseCSV (writeRows eol rows) = rows.
Proof.
  intros Heol Hrows. unfold parseCSV, initial.
  rewrite scan_writeRows by assumption. reflexivity.
Qed.

Lemma parseCSV_writeRows_witness :
  parseCSV (writeRows [CR; LF]
              [[lit "1"; lit "a,b"; []];
               [[]];
               [lit "say " ++ [dquote] ++ lit "hi" ++ [dquote; LF]; lit "x"]])
  = [[lit "1"; lit "a,b"; []];
     [[]];
     [lit "say " ++ [dquote] ++ lit "hi" ++ [dquote; LF]; lit "x"]].
Proof.
  apply parseCSV_writeRows; [reflexivity|].
  repeat constructor; discriminate.
Defined.

(** X3. Texts compose at a row boundary: when [a] ends outside quotes and
    is followed by a record delimiter [d], the rows of [a ++ d ++ b] are
    the rows of [a ++ d] followed by the rows of [b]. *)
Theorem parseCSV_app_boundary (a d b : JSString) :
  inQuote (scan a initial) = false ->
  isRecordDelimiter d = true ->
  seam a d = true -> seam d b = true ->
  parseCSV (a ++ d ++ b) = parseCSV (a ++ d) ++ parseCSV b.
Proof.
  intros Hq Hd Ha Hb.
  pose proof (isRecordDelimiter_nonempty d Hd) as Hn.
  unfold parseCSV at 1 2.
  rewrite (scan_app a (d ++ b)) by (rewrite seam_app_r; assumption).
  rewrite (scan_app d b) by assumption.
  rewrite (scan_app a d) by assumption.
  rewrite (scan_delimiter d) by assumption.
  rewrite flush_scan_boundary. reflexivity.
Qed.

Lemma parseCSV_app_boundary_witness :
  parseCSV ((lit "1," ++ quoted (lit "a" ++ [LF] ++ lit "b"))
              ++ [CR; LF] ++ lit "2,c")
  = parseCSV ((lit "1," ++ quoted (lit "a" ++ [LF] ++ lit "b")) ++ [CR; LF])
    ++ parseCSV (lit "2,c").
Proof. apply parseCSV_app_boundary; reflexivity. Defined.

(** ** More on the outline *)

Lemma trimStart_cleanStart s : cleanStart (trimStart s).
Proof.
  induction s as [|c s IH]; simpl; auto.
  destruct (isWhiteSpace c) eqn:E; [exact IH | exact E].
Qed.

Lemma trimStart_fixed s : cleanStart s -> trimStart s = s.
Proof. destruct s as [|c s]; simpl; auto. intros ->. reflexivity. Qed.

Lemma trimStart_skipn s : exists k, trimStart s = skipn k s.
Proof.
  induction s as [|c s [k IH]].
  - exists 0%nat. reflexivity.
  - simpl. destruct (isWhiteSpace c).
    + exists (S k). exact IH.
    + exists 0%nat. reflexivity.
Qed.

Lemma trimEnd_firstn s : exists m, trimEnd s = firstn m s.
Proof.
  unfold trimEnd. destruct (trimStart_skipn (rev s)) as [k ->].
  exists (length s - k)%nat. rewrite skipn_rev, rev_involutive. reflexivity.
Qed.

Lemma trimEnd_cleanStart s : cleanStart s -> cleanStart (trimEnd s).
Proof.
  intros H. destruct (trimEnd_firstn s) as [m ->].
  destruct m, s; simpl; auto.
Qed.

Lemma trimEnd_idempotent s : trimEnd (trimEnd s) = trimEnd s.
Proof.
  unfold trimEnd. rewrite rev_involutive.
  rewrite (trimStart_fixed (trimStart (rev s))) by apply trimStart_cleanStart.
  reflexivity.
Qed.

Lemma trim_idempotent s : trim (trim s) = trim s.
Proof.
  unfold trim.
  rewrite (trimStart_fixed (trimEnd (trimStart s)))
    by (apply trimEnd_cleanStart, trimStart_cleanStart).
  apply trimEnd_idempotent.
Qed.

Lemma addRow_length newOutline cols :
  (length (addRow newOutline cols) <= S (length newOutline))%nat.
Proof.
  unfold addRow.
  destruct (truthy (titleOf cols) || truthy (contentOf cols));
    rewrite ?length_app; simpl; lia.
Qed.

Lemma fold_addRow_length dataRows : forall newOutline,
  (length (fold_left addRow dataRows newOutline)
   <= length newOutline + length dataRows)%nat.
Proof.
  induction dataRows as [|cols dataRows IH]; intros newOutline; simpl.
  - lia.
  - pose proof (IH (addRow newOutline cols)).
    pose proof (addRow_length newOutline cols). lia.
Qed.

Lemma fold_addRow_imported dataRows : forall newOutline,
  Forall importedPage newOutline ->
  Forall importedPage (fold_left addRow dataRows newOutline).
Proof.
  induction dataRows as [|cols dataRows IH]; intros newOutline Hacc; simpl.
  - exact Hacc.
  - apply IH. unfold addRow.
    destruct (truthy (titleOf cols) || truthy (contentOf cols));
      [|exact Hacc].
    apply Forall_app. split; [exact Hacc|].
    constructor; [|constructor].
    unfold importedPage. cbn [visualCue emphasis mood title content].
    rewrite !trim_idempotent. auto.
Qed.

Lemma pageNumOf_short newOutline cols :
  shortRow cols ->
  pageNumOf newOutline cols = Num (Z.of_nat (S (length newOutline))).
Proof.
  unfold shortRow, pageNumOf. intros H.
  replace (Z.of_nat (length newOutline) + 1)%Z
    with (Z.of_nat (S (length newOutline))) by lia.
  destruct cols as [|c0 [|c1 [|c2 cols]]]; try reflexivity.
  simpl in H. lia.
Qed.

Lemma fold_addRow_positions dataRows : forall newOutline,
  Forall shortRow dataRows ->
  map pageNumber newOutline
  = map (fun i => Num (Z.of_nat i)) (seq 1 (length newOutline)) ->
  map pageNumber (fold_left addRow dataRows newOutline)
  = map (fun i => Num (Z.of_nat i))
        (seq 1 (length (fold_left addRow dataRows newOutline))).
Proof.
  induction dataRows as [|cols dataRows IH]; intros newOutline Hshort Hacc;
    simpl.
  - exact Hacc.
  - apply IH; [apply (Forall_inv_tail Hshort)|].
    unfold addRow.
    destruct (truthy (titleOf cols) || truthy (contentOf cols));
      [|exact Hacc].
    rewrite map_app, length_app, Nat.add_1_r, seq_S, map_app, Hacc.
    cbn [map pageNumber length].
    rewrite (pageNumOf_short newOutline cols (Forall_inv Hshort)).
    reflexivity.
Qed.

Lemma Forall_skipn (A : Type) (P : A -> Prop) (n : nat) (l : list A) :
  Forall P l -> Forall P (skipn n l).
Proof.
  intros H. apply Forall_forall. intros x Hx.
  apply (proj1 (Forall_forall P l) H). apply (In_skipn A n l x Hx).
Qed.

Lemma scan_rows_nonempty text :
  Forall (fun row : Row => row <> []) (flush (scan text initial)).
Proof.
  unfold flush.
  assert (H : Forall (fun row : Row => row <> [])
                     (rows (scan text initial))).
  { apply scan_preserves with
      (I := fun s => Forall (fun row : Row => row <> []) (rows s)).
    - intros. apply body_rows_have_fields. assumption.
    - constructor. }
  destruct (truthy (currentVal (scan text initial))
            || (0 <? length (currentRow (scan text initial)))%nat);
    [|exact H].
  apply Forall_app. split; [exact H|].
  constructor; [apply snoc_not_nil | constructor].
Qed.

Section OutlineFacts.

Variable toLowerCase : JSString -> JSString.

Lemma buildOutline_imported (rows : list Row)
      (pages : list PresentationPage) :
  buildOutline toLowerCase rows = Normal pages ->
  Forall importedPage pages /\ (length pages <= length rows)%nat.
Proof.
  intros H. apply buildOutline_normal in H. destruct H as (n & _ & ->).
  split.
  - apply fold_addRow_imported. constructor.
  - pose proof (fold_addRow_length (skipn n rows) []) as Hlen.
    rewrite length_skipn in Hlen. simpl in Hlen. lia.
Qed.

(** X4. Every page made from an uploaded text has an empty visual cue,
    emphasis and mood, and a title and a content without white space at
    either end (trimming them again changes nothing); and there are no
    more pages than rows. *)
Theorem buildOutline_imported_pages (rows : list Row)
        (pages : list PresentationPage) :
  buildOutline toLowerCase rows = Normal pages ->
  Forall importedPage pages /\ (length pages <= length rows)%nat.
Proof. apply buildOutline_imported. Qed.

(** X5. When no row has three fields or more, the pages are numbered
    1, 2, 3, ... in order, without gap, whatever rows were skipped. *)
Theorem buildOutline_positions (rows : list Row)
        (pages : list PresentationPage) :
  Forall shortRow rows ->
  buildOutline toLowerCase rows = Normal pages ->
  map pageNumber pages
  = map (fun i => Num (Z.of_nat i)) (seq 1 (length pages)).
Proof.
  intros Hshort H. apply buildOutline_normal in H.
  destruct H as (n & _ & ->).
  apply fold_addRow_positions; [|reflexivity].
  apply Forall_skipn. exact Hshort.
Qed.

(** The header test fails exactly on a missing first row, a first row
    without field, and a first row of one field without slide marker. *)
Lemma startIndexOf_throws (row0 : option Row) :
  startIndexOf toLowerCase row0 = Throw TypeError <->
  match row0 with
  | None => True
  | Some [] => True
  | Some [field] =>
    includes (toLowerCase field) markerSlide = false /\
    includes (toLowerCase field) (lit "slide") = false
  | Some (_ :: _ :: _) => False
  end.
Proof.
  destruct row0 as [[|f0 [|f1 more]]|].
  - split; [auto | reflexivity].
  - unfold startIndexOf, includesAt. cbn [map nth_error].
    destruct (includes (toLowerCase f0) markerSlide); cbn [orC].
    + split; [discriminate | intros [H _]; discriminate H].
    + destruct (includes (toLowerCase f0) (lit "slide")); cbn [orC].
      * split; [discriminate | intros [_ H]; discriminate H].
      * split; auto.
  - rewrite startIndexOf_two_fields. split; [discriminate | tauto].
  - split; [auto | reflexivity].
Qed.

(** X6. The handler shows the message that reading the CSV failed in one
    case only: the text has a first row of exactly one field, and that
    field, lower-cased, holds neither marker for slide.  In every other
    case the loop over the rows runs to its end. *)
Theorem onload_load_failed (prev : AppState) (text : JSString) :
  In (Alert msgLoadFailed) (snd (onload toLowerCase prev text)) <->
  exists field more,
    parseCSV text = [field] :: more /\
    includes (toLowerCase field) markerSlide = false /\
    includes (toLowerCase field) (lit "slide") = false.
Proof.
  unfold onload.
  destruct text as [|c text].
  { simpl. split; [tauto|]. intros (f & more & H & _). discriminate H. }
  cbn [truthy negb].
  pose proof (scan_rows_nonempty (c :: text)) as Hne.
  fold (parseCSV (c :: text)) in Hne.
  destruct (parseCSV (c :: text)) as [|row more] eqn:E.
  { simpl. split; [tauto|]. intros (f & more & H & _). discriminate H. }
  cbn [length Nat.eqb]. apply Forall_inv in Hne.
  unfold buildOutline. cbn [nth_error].
  pose proof (startIndexOf_throws (Some row)) as Hthrow.
  destruct (startIndexOf toLowerCase (Some row)) as [n|[]].
  - assert (Hno : ~ (exists field more0,
                        row :: more = [field] :: more0 /\
                        includes (toLowerCase field) markerSlide = false /\
                        includes (toLowerCase field) (lit "slide") = false)).
    { intros (f & more0 & Hrow & H1 & H2). injection Hrow as -> _.
      destruct Hthrow as [_ Hback]. specialize (Hback (conj H1 H2)).
      discriminate Hback. }
    destruct (0 <? length (fold_left addRow (skipn n (row :: more)) []))%nat;
      simpl; split; try tauto.
    intros [H|[]]. discriminate H.
  - destruct Hthrow as [Hfwd _]. specialize (Hfwd eq_refl).
    destruct row as [|f0 [|f1 rest]]; [congruence| |contradiction].
    split.
    + intros _. exists f0, more. tauto.
    + intros _. simpl. auto.
Qed.

(** X7. The handler either leaves the state as it was, or shows nothing
    and installs an outline of at least one page and at most as many pages
    as the text has rows, all of them as X4 says, with the step set to 2
    and the image count to the number of pages; the mode, the prompt, the
    style, the images, the selection and the reference image are never
    touched. *)
Theorem onload_installs (prev : AppState) (text : JSString) :
  fst (onload toLowerCase prev text) = prev \/
  (snd (onload toLowerCase prev text) = [] /\
   step (fst (onload toLowerCase prev text)) = 2%Z /\
   presentationOutline (fst (onload toLowerCase prev text)) <> [] /\
   imageCount (fst (onload toLowerCase prev text))
   = Z.of_nat (length (presentationOutline
                         (fst (onload toLowerCase prev text)))) /\
   (length (presentationOutline (fst (onload toLowerCase prev text)))
    <= length (parseCSV text))%nat /\
   Forall importedPage
          (presentationOutline (fst (onload toLowerCase prev text))) /\
   mode (fst (onload toLowerCase prev text)) = mode prev /\
   prompt (fst (onload toLowerCase prev text)) = prompt prev /\
   complexity (fst (onload toLowerCase prev text)) = complexity prev /\
   stylePreferences (fst (onload toLowerCase prev text))
   = stylePreferences prev /\
   generatedImages (fst (onload toLowerCase prev text))
   = generatedImages prev /\
   selectedImageId (fst (onload toLowerCase prev text))
   = selectedImageId prev /\
   isGenerating (fst (onload toLowerCase prev text)) = isGenerating prev /\
   aiSuggestions (fst (onload toLowerCase prev text)) = aiSuggestions prev /\
   referenceImage (fst (onload toLowerCase prev text))
   = referenceImage prev /\
   isAnimationMode (fst (onload toLowerCase prev text))
   = isAnimationMode prev).
Proof.
  unfold onload.
  destruct (negb (truthy text)); [left; reflexivity|].
  destruct (length (parseCSV text) =? 0)%nat; [left; reflexivity|].
  destruct (buildOutline toLowerCase (parseCSV text)) as [pages|e] eqn:E;
    [|left; reflexivity].
  destruct pages as [|p ps]; [left; reflexivity|].
  right. cbn [length Nat.ltb Nat.leb fst snd install step presentationOutline
              imageCount mode prompt complexity stylePreferences
              generatedImages selectedImageId isGenerating aiSuggestions
              referenceImage isAnimationMode].
  destruct (buildOutline_imported (parseCSV text) (p :: ps) E)
    as [Himp Hlen].
  repeat split; try reflexivity; try assumption. discriminate.
Qed.

End OutlineFacts.

Lemma buildOutline_imported_pages_witness :
  Forall importedPage
         [mkPage (Num 1) (lit "A b") (lit "C") [] [] []] /\
  (1 <= 2)%nat.
Proof.
  apply (buildOutline_imported_pages toLowerCaseLatin
           [[lit "Slide"; lit "Title"]; [lit "  A b "; lit "C "]]).
  reflexivity.
Defined.

Lemma buildOutline_positions_witness :
  map pageNumber
      [mkPage (Num 1) (lit "A") (lit "B") [] [] [];
       mkPage (Num 2) [] (lit "D") [] [] []]
  = map (fun i => Num (Z.of_nat i)) (seq 1 2).
Proof.
  apply (buildOutline_positions toLowerCaseLatin
           [[lit "A"; lit "B"]; [[]; []]; [lit "D"]]).
  - repeat constructor.
  - reflexivity.
Defined.

Lemma onload_load_failed_witness :
  In (Alert msgLoadFailed)
     (snd (onload toLowerCaseLatin INITIAL_STATE
                  (lit "Agenda" ++ [LF] ++ lit "1,Intro,Welcome"))).
Proof.
  apply (proj2 (onload_load_failed toLowerCaseLatin INITIAL_STATE
                  (lit "Agenda" ++ [LF] ++ lit "1,Intro,Welcome"))).
  exists (lit "Agenda"), [[lit "1"; lit "Intro"; lit "Welcome"]].
  repeat split.
Defined.

(** ** Editing the outline *)

Lemma replaceAt_length (A : Type) (x : A) (l : list A) : forall i,
  length (replaceAt i x l) = length l.
Proof.
  induction l as [|y l IH]; intros [|i]; simpl; auto.
Qed.

Lemma replaceAt_same (A : Type) (x : A) (l : list A) : forall i,
  (i < length l)%nat -> nth_error (replaceAt i x l) i = Some x.
Proof.
  induction l as [|y l IH]; intros [|i] H; simpl in *; try lia; auto.
  apply IH. lia.
Qed.

Lemma replaceAt_other (A : Type) (x : A) (l : list A) : forall i j,
  i <> j -> nth_error (replaceAt i x l) j = nth_error l j.
Proof.
  induction l as [|y l IH]; intros [|i] [|j] H; simpl; auto; try congruence.
Qed.

Lemma replaceAt_twice (A : Type) (x y : A) (l : list A) : forall i,
  replaceAt i x (replaceAt i y l) = replaceAt i x l.
Proof.
  induction l as [|z l IH]; intros [|i]; simpl; auto. rewrite IH. reflexivity.
Qed.

Lemma replaceAt_swap (A : Type) (x y : A) (l : list A) : forall i j,
  i <> j ->
  replaceAt j y (replaceAt i x l) = replaceAt i x (replaceAt j y l).
Proof.
  induction l as [|z l IH]; intros [|i] [|j] H; simpl; auto;
    try congruence.
  rewrite IH by congruence. reflexivity.
Qed.

Lemma replaceAt_map (A B : Type) (f : A -> B) (x y : A) (l : list A) :
  forall i, nth_error l i = Some y -> f x = f y ->
            map f (replaceAt i x l) = map f l.
Proof.
  induction l as [|z l IH]; intros [|i] Hy Hf; simpl in *;
    try discriminate.
  - injection Hy as ->. rewrite Hf. reflexivity.
  - rewrite (IH i Hy Hf). reflexivity.
Qed.

Lemma nth_error_in_range (A : Type) (l : list A) i y :
  nth_error l i = Some y -> (i < length l)%nat.
Proof. intros H. apply nth_error_Some. congruence. Qed.

Lemma assignField_pageNumber page field value :
  pageNumber (assignField page field value) = pageNumber page.
Proof. destruct field; reflexivity. Qed.

Lemma assignField_read page field value :
  field <> K_pageNumber ->
  readField (assignField page field value) field = StringValue value.
Proof. destruct field; intros H; try reflexivity. congruence. Qed.

Lemma assignField_read_other page field value other :
  other <> field ->
  readField (assignField page field value) other = readField page other.
Proof. destruct field, other; intros H; try reflexivity; congruence. Qed.

Lemma assignField_swap page f v g w :
  f <> g ->
  assignField (assignField page f v) g w
  = assignField (assignField page g w) f v.
Proof. destruct f, g; intros H; try reflexivity; congruence. Qed.

Lemma assignField_twice page f v w :
  assignField (assignField page f v) f w = assignField page f w.
Proof. destruct f; reflexivity. Qed.

(** X8. Editing the outline never changes a page number, whatever key
    and value are passed, nor the number of pages, nor anything of the
    state besides the outline. *)
Theorem handleOutlineChange_keeps_numbers (prev st : AppState) (index : nat)
        (field : PageField) (value : JSString) :
  handleOutlineChange prev index field value = Normal st ->
  map pageNumber (presentationOutline st)
  = map pageNumber (presentationOutline prev) /\
  length (presentationOutline st) = length (presentationOutline prev) /\
  st = withOutline (presentationOutline st) prev.
Proof.
  unfold handleOutlineChange.
  destruct (isPageNumberKey field).
  - intros H. injection H as <-. destruct prev; auto.
  - destruct (nth_error (presentationOutline prev) index) as [page|] eqn:E;
      [|discriminate].
    intros H. injection H as <-. cbn [presentationOutline withOutline].
    split; [|split].
    + apply (replaceAt_map _ _ pageNumber _ page); auto.
      apply assignField_pageNumber.
    + apply replaceAt_length.
    + reflexivity.
Qed.

Lemma handleOutlineChange_keeps_numbers_witness :
  map pageNumber
      [mkPage (Num 5) (lit "New") (lit "Bar") [] [] []]
  = map pageNumber [mkPage (Num 5) (lit "Foo") (lit "Bar") [] [] []].
Proof.
  apply (handleOutlineChange_keeps_numbers
           (withOutline [mkPage (Num 5) (lit "Foo") (lit "Bar") [] [] []]
                        INITIAL_STATE)
           (withOutline [mkPage (Num 5) (lit "New") (lit "Bar") [] [] []]
                        INITIAL_STATE)
           0 K_title (lit "New")).
  reflexivity.
Defined.

(** X9. Writing a field of a page that exists and reading it back: the
    page at the index holds the value under the key, its other keys and
    all other pages are as before. *)
Theorem handleOutlineChange_lookup (prev : AppState) (index : nat)
        (field : PageField) (value : JSString) (page : PresentationPage) :
  field <> K_pageNumber ->
  nth_error (presentationOutline prev) index = Some page ->
  exists st page',
    handleOutlineChange prev index field value = Normal st /\
    nth_error (presentationOutline st) index = Some page' /\
    readField page' field = StringValue value /\
    (forall other, other <> field ->
                   readField page' other = readField page other) /\
    (forall j, j <> index ->
               nth_error (presentationOutline st) j
               = nth_error (presentationOutline prev) j).
Proof.
  intros Hfield Hpage. unfold handleOutlineChange.
  replace (isPageNumberKey field) with false
    by (destruct field; try reflexivity; congruence).
  rewrite Hpage.
  eexists. exists (assignField page field value).
  split; [reflexivity|]. cbn [presentationOutline withOutline].
  split; [|split; [|split]].
  - apply replaceAt_same. apply (nth_error_in_range _ _ _ _ Hpage).
  - apply assignField_read. exact Hfield.
  - intros other Hother. apply assignField_read_other. exact Hother.
  - intros j Hj. apply replaceAt_other. congruence.
Qed.

Lemma handleOutlineChange_lookup_witness :
  exists st page',
    handleOutlineChange
      (withOutline [mkPage (Num 1) (lit "A") (lit "B") [] [] [];
                    mkPage (Num 2) (lit "C") (lit "D") [] [] []]
                   INITIAL_STATE)
      1 K_mood (lit "calm") = Normal st /\
    nth_error (presentationOutline st) 1 = Some page' /\
    readField page' K_mood = StringValue (lit "calm") /\
    (forall other, other <> K_mood ->
                   readField page' other
                   = readField (mkPage (Num 2) (lit "C") (lit "D") [] [] [])
                               other) /\
    (forall j, j <> 1%nat ->
               nth_error (presentationOutline st) j
               = nth_error
                   (presentationOutline
                      (withOutline
                         [mkPage (Num 1) (lit "A") (lit "B") [] [] [];
                          mkPage (Num 2) (lit "C") (lit "D") [] [] []]
                         INITIAL_STATE)) j).
Proof.
  apply handleOutlineChange_lookup; [discriminate | reflexivity].
Defined.

(** X10. The only failure of an edit is the TypeError of an index
    without page, and it needs a key other than the page number: under
    that key the handler returns before it looks at the index. *)
Theorem handleOutlineChange_throws (prev : AppState) (index : nat)
        (field : PageField) (value : JSString) :
  handleOutlineChange prev index field value = Throw TypeError <->
  field <> K_pageNumber /\
  (length (presentationOutline prev) <= index)%nat.
Proof.
  unfold handleOutlineChange. destruct field; cbn [isPageNumberKey];
    try (split; [discriminate | intros [H _]; congruence]);
    (destruct (nth_error (presentationOutline prev) index) as [page|] eqn:E;
     [ split; [discriminate|];
       intros [_ H]; apply nth_error_in_range in E; lia
     | split; auto; intros _; split; [discriminate|];
       apply nth_error_None; exact E ]).
Qed.

Lemma withOutline_withOutline a b prev :
  withOutline a (withOutline b prev) = withOutline a prev.
Proof. reflexivity. Qed.

Lemma handleOutlineChange_none prev index field value :
  isPageNumberKey field = false ->
  nth_error (presentationOutline prev) index = None ->
  handleOutlineChange prev index field value = Throw TypeError.
Proof.
  intros Hf Hn. unfold handleOutlineChange. rewrite Hf, Hn. reflexivity.
Qed.

Lemma handleOutlineChange_some prev index field value page :
  isPageNumberKey field = false ->
  nth_error (presentationOutline prev) index = Some page ->
  handleOutlineChange prev index field value
  = Normal (withOutline
              (replaceAt index (assignField page field value)
                         (presentationOutline prev)) prev).
Proof.
  intros Hf Hn. unfold handleOutlineChange. rewrite Hf, Hn. reflexivity.
Qed.

Lemma handleOutlineChange_key prev index value :
  handleOutlineChange prev index K_pageNumber value = Normal prev.
Proof. reflexivity. Qed.

Lemma thenChange_key r index value :
  thenChange r index K_pageNumber value = r.
Proof. destruct r; reflexivity. Qed.

Lemma isPageNumberKey_true field :
  isPageNumberKey field = true -> field = K_pageNumber.
Proof. destruct field; try discriminate; reflexivity. Qed.

Lemma handleOutlineChange_swap prev i f v j g w :
  i <> j \/ f <> g ->
  thenChange (handleOutlineChange prev i f v) j g w
  = thenChange (handleOutlineChange prev j g w) i f v.
Proof.
  intros Hdiff.
  destruct (isPageNumberKey f) eqn:Ef.
  { apply isPageNumberKey_true in Ef. subst f.
    rewrite handleOutlineChange_key, thenChange_key. reflexivity. }
  destruct (isPageNumberKey g) eqn:Eg.
  { apply isPageNumberKey_true in Eg. subst g.
    rewrite handleOutlineChange_key, thenChange_key. reflexivity. }
  destruct (nth_error (presentationOutline prev) i) as [pi|] eqn:Ei;
    destruct (nth_error (presentationOutline prev) j) as [pj|] eqn:Ej.
  - rewrite (handleOutlineChange_some prev i f v pi Ef Ei).
    rewrite (handleOutlineChange_some prev j g w pj Eg Ej).
    cbn [thenChange].
    destruct (Nat.eq_dec i j) as [->|Hij].
    + assert (pi = pj) by congruence. subst pj.
      assert (Hfg : f <> g) by (destruct Hdiff; congruence).
      rewrite (handleOutlineChange_some _ j g w (assignField pi f v) Eg)
        by (apply replaceAt_same, (nth_error_in_range _ _ _ _ Ei)).
      rewrite (handleOutlineChange_some _ j f v (assignField pi g w) Ef)
        by (apply replaceAt_same, (nth_error_in_range _ _ _ _ Ei)).
      cbn [presentationOutline withOutline].
      rewrite !replaceAt_twice, !withOutline_withOutline.
      rewrite (assignField_swap pi f v g w Hfg). reflexivity.
    + rewrite (handleOutlineChange_some _ j g w pj Eg)
        by (cbn [presentationOutline withOutline];
            rewrite replaceAt_other by assumption; exact Ej).
      rewrite (handleOutlineChange_some _ i f v pi Ef)
        by (cbn [presentationOutline withOutline];
            rewrite replaceAt_other by congruence; exact Ei).
      cbn [presentationOutline withOutline].
      rewrite !withOutline_withOutline.
      rewrite (replaceAt_swap _ _ _ _ i j Hij). reflexivity.
  - rewrite (handleOutlineChange_some prev i f v pi Ef Ei).
    rewrite (handleOutlineChange_none prev j g w Eg Ej).
    cbn [thenChange]. apply handleOutlineChange_none; [exact Eg|].
    cbn [presentationOutline withOutline].
    apply nth_error_None. rewrite replaceAt_length.
    apply nth_error_None. exact Ej.
  - rewrite (handleOutlineChange_none prev i f v Ef Ei).
    rewrite (handleOutlineChange_some prev j g w pj Eg Ej).
    cbn [thenChange]. symmetry. apply handleOutlineChange_none; [exact Ef|].
    cbn [presentationOutline withOutline].
    apply nth_error_None. rewrite replaceAt_length.
    apply nth_error_None. exact Ei.
  - rewrite (handleOutlineChange_none prev i f v Ef Ei).
    rewrite (handleOutlineChange_none prev j g w Eg Ej). reflexivity.
Qed.

Lemma handleOutlineChange_overwrite prev i f v w :
  thenChange (handleOutlineChange prev i f v) i f w
  = handleOutlineChange prev i f w.
Proof.
  destruct (isPageNumberKey f) eqn:Ef.
  { apply isPageNumberKey_true in Ef. subst f. reflexivity. }
  destruct (nth_error (presentationOutline prev) i) as [pi|] eqn:Ei.
  - rewrite (handleOutlineChange_some prev i f v pi Ef Ei).
    rewrite (handleOutlineChange_some prev i f w pi Ef Ei).
    cbn [thenChange].
    rewrite (handleOutlineChange_some _ i f w (assignField pi f v) Ef)
      by (apply replaceAt_same, (nth_error_in_range _ _ _ _ Ei)).
    cbn [presentationOutline withOutline].
    rewrite replaceAt_twice, withOutline_withOutline, assignField_twice.
    reflexivity.
  - rewrite !(handleOutlineChange_none prev i f _ Ef Ei). reflexivity.
Qed.

(** X11. Two edits of different fields, or of different pages, give the
    same state in either order, failures included; two edits of the same
    field of the same page leave the second value. *)
Theorem handleOutlineChange_order (prev : AppState) (i j : nat)
        (f g : PageField) (v w : JSString) :
  (i <> j \/ f <> g ->
   thenChange (handleOutlineChange prev i f v) j g w
   = thenChange (handleOutlineChange prev j g w) i f v) /\
  thenChange (handleOutlineChange prev i f v) i f w
  = handleOutlineChange prev i f w.
Proof.
  split; [apply handleOutlineChange_swap | apply handleOutlineChange_overwrite].
Qed.

Lemma handleOutlineChange_order_witness :
  thenChange
    (handleOutlineChange
       (withOutline [mkPage (Num 1) (lit "A") (lit "B") [] [] []]
                    INITIAL_STATE) 0 K_title (lit "T")) 0 K_content (lit "C")
  = thenChange
      (handleOutlineChange
         (withOutline [mkPage (Num 1) (lit "A") (lit "B") [] [] []]
                      INITIAL_STATE) 0 K_content (lit "C")) 0 K_title (lit "T").
Proof.
  apply (proj1 (handleOutlineChange_order _ 0 0 K_title K_content _ _)).
  right. discriminate.
Defined.

(** ** Names for the Drive *)

Lemma uintCodes_digits d : Forall (fun c => isDigit c = true) (uintCodes d).
Proof. induction d; simpl; constructor; auto. Qed.

Lemma uintCodes_inj d : forall d', uintCodes d = uintCodes d' -> d = d'.
Proof.
  induction d; intros d' H; destruct d'; simpl in H;
    try discriminate; try reflexivity;
    injection H as H; f_equal; auto.
Qed.

Lemma numberToString_inj n m :
  numberToString n = numberToString m -> n = m.
Proof.
  unfold numberToString. intros H. apply uintCodes_inj in H.
  apply DecimalNat.Unsigned.to_uint_inj. exact H.
Qed.

Lemma to_uint_normal n : Decimal.unorm (Nat.to_uint n) = Nat.to_uint n.
Proof.
  rewrite <- (DecimalNat.Unsigned.of_to n) at 2.
  rewrite DecimalNat.Unsigned.to_of. reflexivity.
Qed.

(** A decimal numeral that starts with the digit 0 is the numeral 0. *)
Lemma numberToString_leading_zero n rest :
  numberToString n = zeroDigit :: rest -> rest = [].
Proof.
  unfold numberToString. intros H.
  destruct (Nat.to_uint n) as [|d| | | | | | | | | ] eqn:E;
    simpl in H; try discriminate.
  injection H as <-.
  pose proof (to_uint_normal n) as Hn. rewrite E in Hn.
  rewrite DecimalFacts.unorm_D0 in Hn.
  unfold Decimal.unorm in Hn.
  destruct (Decimal.nzhead d) eqn:Ez;
    try (exfalso; apply (DecimalFacts.nzhead_nonzero d d); congruence).
  injection Hn as <-. reflexivity.
Qed.

Lemma numberToString_nonempty n : numberToString n <> [].
Proof.
  unfold numberToString. intros H.
  pose proof (DecimalFacts.unorm_nonnil (Nat.to_uint n)) as Hn.
  rewrite to_uint_normal in Hn.
  destruct (Nat.to_uint n); simpl in H; try discriminate. congruence.
Qed.

Lemma padStart_two s :
  padStart 2 zeroDigit s
  = match s with
    | [] => [zeroDigit; zeroDigit]
    | [c] => [zeroDigit; c]
    | _ => s
    end.
Proof. destruct s as [|c [|c' s]]; reflexivity. Qed.

Lemma padStart_numberToString_inj n m :
  padStart 2 zeroDigit (numberToString n)
  = padStart 2 zeroDigit (numberToString m) -> n = m.
Proof.
  rewrite !padStart_two. intros H. apply numberToString_inj.
  pose proof (numberToString_nonempty n) as Hn.
  pose proof (numberToString_nonempty m) as Hm.
  pose proof (numberToString_leading_zero n) as Zn.
  pose proof (numberToString_leading_zero m) as Zm.
  destruct (numberToString n) as [|a [|a' s]];
    destruct (numberToString m) as [|b [|b' t]];
    try congruence.
  - injection H as <- <- <-. specialize (Zm _ eq_refl). discriminate Zm.
  - injection H as -> -> ->. specialize (Zn _ eq_refl). discriminate Zn.
Qed.

Lemma padStart_digits n :
  Forall (fun c => isDigit c = true)
         (padStart 2 zeroDigit (numberToString n)).
Proof.
  unfold padStart. apply Forall_app. split.
  - apply Forall_forall. intros c Hc. apply repeat_spec in Hc. subst.
    reflexivity.
  - apply uintCodes_digits.
Qed.

(** Two runs of digits, each followed by a character that is no digit,
    start a common text only if they are the same run. *)
Lemma digits_prefix_inj a : forall b x y r r',
  Forall (fun c => isDigit c = true) a ->
  Forall (fun c => isDigit c = true) b ->
  isDigit x = false -> isDigit y = false ->
  a ++ x :: r = b ++ y :: r' -> a = b.
Proof.
  induction a as [|c a IH]; intros [|d b] x y r r' Ha Hb Hx Hy H;
    simpl in H.
  - reflexivity.
  - injection H as -> _. apply Forall_inv in Hb. congruence.
  - injection H as -> _. apply Forall_inv in Ha. congruence.
  - injection H as -> H. f_equal.
    apply (IH b x y r r'); auto.
    + apply (Forall_inv_tail Ha).
    + apply (Forall_inv_tail Hb).
Qed.

Lemma fileNameOf_single state idx :
  mode state = SINGLE ->
  fileNameOf state idx
  = [30011; 20687; 95]%N
    ++ padStart 2 zeroDigit (numberToString (idx + 1)) ++ 46%N :: lit "png".
Proof. intros E. unfold fileNameOf. rewrite E. reflexivity. Qed.

Lemma fileNameOf_presentation state idx :
  mode state = PRESENTATION ->
  exists rest,
    fileNameOf state idx
    = padStart 2 zeroDigit (numberToString (idx + 1)) ++ underscore :: rest.
Proof.
  intros E. unfold fileNameOf. rewrite E.
  destruct (nth_error (presentationOutline state) idx);
    eexists; reflexivity.
Qed.

Lemma fileNameOf_inj state i j :
  fileNameOf state i = fileNameOf state j -> i = j.
Proof.
  intros H.
  assert (Hpad : padStart 2 zeroDigit (numberToString (i + 1))
                 = padStart 2 zeroDigit (numberToString (j + 1))).
  { destruct (mode state) eqn:E.
    - rewrite !(fileNameOf_single state _ E) in H.
      apply app_inv_head in H.
      apply (digits_prefix_inj _ _ 46%N 46%N _ _
               (padStart_digits (i + 1)) (padStart_digits (j + 1))
               eq_refl eq_refl H).
    - destruct (fileNameOf_presentation state i E) as [ri Hi].
      destruct (fileNameOf_presentation state j E) as [rj Hj].
      rewrite Hi, Hj in H.
      apply (digits_prefix_inj _ _ underscore underscore _ _
               (padStart_digits (i + 1)) (padStart_digits (j + 1))
               eq_refl eq_refl H). }
  apply padStart_numberToString_inj in Hpad. lia.
Qed.

Lemma itemsFrom_names state images : forall idx,
  map itemName (itemsFrom state idx images)
  = map (fileNameOf state) (seq idx (length images)).
Proof.
  induction images as [|img images IH]; intros idx; simpl; auto.
  rewrite IH. reflexivity.
Qed.

Lemma itemsFrom_urls state images : forall idx,
  map itemUrl (itemsFrom state idx images) = map url images.
Proof.
  induction images as [|img images IH]; intros idx; simpl; auto.
  rewrite IH. reflexivity.
Qed.

(** X12. The files handed to the upload are the images, one file per
    image in order, each with the data URL of its image, and no two of
    them have the same name, in either mode and whatever the titles. *)
Theorem imagesToUpload_names_distinct (state : AppState) :
  map itemUrl (imagesToUpload state) = map url (generatedImages state) /\
  NoDup (map itemName (imagesToUpload state)).
Proof.
  unfold imagesToUpload. split; [apply itemsFrom_urls|].
  rewrite itemsFrom_names.
  apply Finite.Injective_map_NoDup; [|apply seq_NoDup].
  intros i j. apply fileNameOf_inj.
Qed.

Lemma isDigit_safe c : isDigit c = true -> isSafeChar c = true.
Proof.
  unfold isDigit, isSafeChar, isWordChar. intros ->. reflexivity.
Qed.

Lemma digits_safe s :
  Forall (fun c => isDigit c = true) s ->
  Forall (fun c => isSafeChar c = true) s.
Proof.
  intros H. apply Forall_forall. intros c Hc.
  apply isDigit_safe. apply (proj1 (Forall_forall _ s) H c Hc).
Qed.

Lemma replaceUnsafe_safe s :
  Forall (fun c => isSafeChar c = true) (replaceUnsafe s).
Proof.
  induction s as [|c s IH]; simpl; constructor; auto.
  destruct (isSafeChar c) eqn:E; [exact E | reflexivity].
Qed.

Lemma replaceUnsafe_all s :
  Forall (fun c => isSafeChar c = false) s ->
  replaceUnsafe s = repeat underscore (length s).
Proof.
  induction 1 as [|c s Hc Hs IH]; simpl; auto.
  rewrite Hc, IH. reflexivity.
Qed.

Lemma yymmdd_safe now : Forall (fun c => isSafeChar c = true) (yymmdd now).
Proof.
  unfold yymmdd. apply Forall_app; split; [|apply Forall_app; split].
  - unfold sliceLast. apply Forall_skipn. apply digits_safe.
    apply uintCodes_digits.
  - apply digits_safe, padStart_digits.
  - apply digits_safe, padStart_digits.
Qed.

Lemma padStart_length_small n :
  (n < 100)%nat -> length (padStart 2 zeroDigit (numberToString n)) = 2%nat.
Proof.
  intros Hn.
  assert (H : forallb
                (fun k => (length (padStart 2 zeroDigit (numberToString k))
                           =? 2)%nat)
                (seq 0 100) = true) by (vm_compute; reflexivity).
  rewrite forallb_forall in H. apply Nat.eqb_eq. apply H.
  apply in_seq. lia.
Qed.

Lemma sliceLast_length n s : (length (sliceLast n s) <= n)%nat.
Proof. unfold sliceLast. rewrite length_skipn. lia. Qed.

Lemma yymmdd_length now :
  (month now < 12)%nat -> (date now < 32)%nat ->
  (length (yymmdd now) <= 6)%nat.
Proof.
  intros Hm Hd. unfold yymmdd. rewrite !length_app.
  rewrite !padStart_length_small by lia.
  pose proof (sliceLast_length 2 (numberToString (fullYear now))). lia.
Qed.

(** X13. The name of the Drive folder holds only characters of the
    classes \w and \s, and for a month and a day as a date has them at
    most 37 characters.  A prompt without any such character, as one
    written in kana and kanji, leaves no trace in it but its length: the
    name is the date followed by underscores. *)
Theorem folderNameOf_safe (state : AppState) (now : DateParts) :
  Forall (fun c => isSafeChar c = true) (folderNameOf state now) /\
  ((month now < 12)%nat -> (date now < 32)%nat ->
   (length (folderNameOf state now) <= 37)%nat) /\
  (prompt state <> [] ->
   Forall (fun c => isSafeChar c = false) (prompt state) ->
   folderNameOf state now
   = yymmdd now
     ++ repeat underscore (S (min 30 (length (prompt state))))).
Proof.
  unfold folderNameOf. split; [|split].
  - apply Forall_app. split; [apply yymmdd_safe|].
    apply Forall_app. split; [repeat constructor|].
    apply replaceUnsafe_safe.
  - intros Hm Hd. rewrite !length_app. unfold replaceUnsafe.
    rewrite length_map, length_firstn. cbn [length].
    pose proof (yymmdd_length now Hm Hd). lia.
  - intros Hp Hall.
    assert (Hsum : forall other, orString (prompt state) other = prompt state).
    { intros other. unfold orString.
      destruct (prompt state); [congruence|reflexivity]. }
    assert (Hcut : replaceUnsafe (firstn 30 (prompt state))
                   = repeat underscore (min 30 (length (prompt state)))).
    { rewrite replaceUnsafe_all, length_firstn; [reflexivity|].
      apply Forall_forall. intros c Hc.
      apply (proj1 (Forall_forall _ _) Hall).
      rewrite <- (firstn_skipn 30 (prompt state)). apply in_or_app. auto. }
    destruct (mode state); rewrite !Hsum, Hcut; reflexivity.
Qed.

Lemma folderNameOf_safe_witness :
  (length (folderNameOf
             (mkState PRESENTATION 3 (lit "Q3 sales: plan & review")
                      STANDARD [] 4 [] None false [] None [] false)
             (mkDate 2026 10 2)) <= 37)%nat /\
  folderNameOf
    (mkState SINGLE 3 markerTitle STANDARD [] 2 [] None false [] None []
             false)
    (mkDate 2026 10 2)
  = yymmdd (mkDate 2026 10 2) ++ repeat underscore 5.
Proof.
  split.
  - apply (proj1 (proj2 (folderNameOf_safe _ (mkDate 2026 10 2))));
      simpl; lia.
  - apply (proj2 (proj2 (folderNameOf_safe
                           (mkState SINGLE 3 markerTitle STANDARD [] 2 []
                                    None false [] None [] false)
                           (mkDate 2026 10 2)))).
    + discriminate.
    + repeat constructor.
Defined.

Example folderName_example :
  folderNameOf
    (mkState PRESENTATION 3 (lit "Q3 sales: plan & review")
             STANDARD [] 4 [] None false [] None [] false)
    (mkDate 2026 10 2)
  = lit "261102_Q3 sales_ plan _ review".
Proof. reflexivity. Qed.

(** ** Uploading and editing *)

Section UploadFacts.

Variable World : Type.
Variable Reason : Type.
Variable upload :
  JSString -> JSString -> JSString -> World -> Settled Reason JSString * World.

Lemma uploadedAll_length images folderId : forall w urls w',
  uploadedAll World Reason upload images folderId w urls w' ->
  length urls = length images.
Proof.
  induction images as [|image more IH]; intros w [|u urls] w' H;
    simpl in H; try contradiction; auto.
  destruct H as (w1 & _ & H). simpl. f_equal. apply (IH w1 urls w' H).
Qed.

Lemma uploadLoop_sequential images : forall folderId results attempted w,
  match uploadLoop World Reason upload images folderId results attempted w
  with
  | (Fulfilled urls, attempted', w') =>
    attempted' = attempted ++ images /\
    exists new,
      urls = results ++ new /\
      uploadedAll World Reason upload images folderId w new w'
  | (Rejected error, attempted', w') =>
    exists before failing after new w0,
      images = before ++ failing :: after /\
      attempted' = attempted ++ before ++ [failing] /\
      uploadedAll World Reason upload before folderId w new w0 /\
      upload (itemUrl failing) (itemName failing) folderId w0
      = (Rejected error, w')
  end.
Proof.
  induction images as [|image more IH]; intros folderId results attempted w.
  - simpl. rewrite app_nil_r. split; [reflexivity|].
    exists []. rewrite app_nil_r. split; reflexivity.
  - simpl.
    destruct (upload (itemUrl image) (itemName image) folderId w)
      as [[fileUrl|error] w1] eqn:E.
    + specialize (IH folderId (results ++ [fileUrl]) (attempted ++ [image]) w1).
      destruct (uploadLoop World Reason upload more folderId
                           (results ++ [fileUrl]) (attempted ++ [image]) w1)
        as [[[urls|error] attempted'] w'].
      * destruct IH as [-> (new & -> & Hall)]. rewrite <- !app_assoc.
        split; [reflexivity|]. exists (fileUrl :: new).
        split; [reflexivity|]. simpl. exists w1. auto.
      * destruct IH as (before & failing & after & new & w0
                        & -> & -> & Hall & Hup).
        exists (image :: before), failing, after, (fileUrl :: new), w0.
        rewrite <- !app_assoc. repeat split; auto.
        simpl. exists w1. auto.
    + exists [], image, more, [], w. simpl. auto.
Qed.

(** X14. Uploading is strictly sequential and stops at the first
    failure.  If the call is fulfilled, every image was handed to an
    upload, in order, each upload starting in the world the previous one
    left, every one of them succeeded, and the addresses returned are
    theirs, one per image.  If it is rejected, the images before the
    failing one were uploaded that way, the reason is that of the upload
    of the failing one, started in the world they left, and the call ends
    in the world this upload left: the images after it were never handed
    to an upload.  The same holds of the legacy entry into the parent
    folder. *)
Theorem uploadImagesToDriveInFolder_sequential
        (images : list UploadItem) (folderId : JSString) (w : World) :
  match uploadImagesToDriveInFolder World Reason upload images folderId w
  with
  | (Fulfilled urls, attempted, w') =>
    attempted = images /\
    length urls = length images /\
    uploadedAll World Reason upload images folderId w urls w'
  | (Rejected error, attempted, w') =>
    exists before failing after urls w0,
      images = before ++ failing :: after /\
      attempted = before ++ [failing] /\
      uploadedAll World Reason upload before folderId w urls w0 /\
      upload (itemUrl failing) (itemName failing) folderId w0
      = (Rejected error, w')
  end /\
  match uploadImagesToDrive World Reason upload images w with
  | (Fulfilled urls, attempted, w') =>
    attempted = images /\
    length urls = length images /\
    uploadedAll World Reason upload images GOOGLE_DRIVE_PARENT_FOLDER_ID
                w urls w'
  | (Rejected error, attempted, w') =>
    exists before failing after urls w0,
      images = before ++ failing :: after /\
      attempted = before ++ [failing] /\
      uploadedAll World Reason upload before GOOGLE_DRIVE_PARENT_FOLDER_ID
                  w urls w0 /\
      upload (itemUrl failing) (itemName failing)
             GOOGLE_DRIVE_PARENT_FOLDER_ID w0
      = (Rejected error, w')
  end.
Proof.
  assert (H : forall folder,
             match uploadLoop World Reason upload images folder [] [] w with
             | (Fulfilled urls, attempted, w') =>
               attempted = images /\
               length urls = length images /\
               uploadedAll World Reason upload images folder w urls w'
             | (Rejected error, attempted, w') =>
               exists before failing after urls w0,
                 images = before ++ failing :: after /\
                 attempted = before ++ [failing] /\
                 uploadedAll World Reason upload before folder w urls w0 /\
                 upload (itemUrl failing) (itemName failing) folder w0
                 = (Rejected error, w')
             end).
  { intros folder.
    pose proof (uploadLoop_sequential images folder [] [] w) as H.
    destruct (uploadLoop World Reason upload images folder [] [] w)
      as [[[urls|error] attempted] w'].
    - destruct H as [-> (new & -> & Hall)]. cbn [app].
      split; [reflexivity|]. split; [|exact Hall].
      apply (uploadedAll_length _ _ _ _ _ Hall).
    - exact H. }
  unfold uploadImagesToDriveInFolder, uploadImagesToDrive.
  split; apply H.
Qed.

End UploadFacts.

Example upload_stops_at_failure :
  uploadImagesToDriveInFolder (list JSString) JSString storeByName
    [mkItem (lit "data:a") (lit "01_a.png");
     mkItem [] (lit "02_b.png");
     mkItem (lit "data:c") (lit "03_c.png")]
    (lit "folder") []
  = (Rejected (lit "02_b.png"),
     [mkItem (lit "data:a") (lit "01_a.png"); mkItem [] (lit "02_b.png")],
     [lit "01_a.png"]).
Proof. reflexivity. Qed.

Lemma str_eqb_refl s : str_eqb s s = true.
Proof.
  induction s as [|c s IH]; simpl; auto. rewrite N.eqb_refl. exact IH.
Qed.

Section EditFacts.

Variable Reason : Type.
Variable edit :
  JSString -> JSString -> Settled Reason (option GeneratedImage).

(** X15. Editing an image never removes nor reorders the images.  Either
    the application state is exactly as before, or a new image was put in
    front of the others and selected, so that the image found under the
    selected id is the new one even when an older image has the same id;
    the instruction is then cleared and nothing is shown.  The handler
    always ends with the editing flag down once it called the service. *)
Theorem handleEditImage_outcome (s : EditorState) :
  (appState (fst (handleEditImage Reason edit s)) = appState s /\
   editInstruction (fst (handleEditImage Reason edit s)) = editInstruction s /\
   (fst (handleEditImage Reason edit s) = s \/
    isEditing (fst (handleEditImage Reason edit s)) = false)) \/
  (exists selected newImage,
      selectedImageOf (appState s) = Some selected /\
      edit (url selected) (editInstruction s) = Fulfilled (Some newImage) /\
      appState (fst (handleEditImage Reason edit s))
      = withNewImage newImage (appState s) /\
      selectedImageOf (appState (fst (handleEditImage Reason edit s)))
      = Some newImage /\
      editInstruction (fst (handleEditImage Reason edit s)) = [] /\
      isEditing (fst (handleEditImage Reason edit s)) = false /\
      snd (handleEditImage Reason edit s) = []).
Proof.
  unfold handleEditImage.
  destruct (selectedImageOf (appState s)) as [selected|] eqn:Esel;
    [|left; auto].
  destruct (negb (truthy (editInstruction s))); [left; auto|].
  destruct (edit (url selected) (editInstruction s))
    as [[newImage|]|error] eqn:E; [|left; auto|left; auto].
  right. exists selected, newImage. cbn [fst snd appState editInstruction
                                          isEditing].
  split; [reflexivity|]. split; [exact E|]. split; [reflexivity|].
  split; [|repeat split].
  unfold selectedImageOf, withNewImage.
  cbn [generatedImages selectedImageId find idMatches].
  rewrite str_eqb_refl. reflexivity.
Qed.

End EditFacts.

(** X16. A record delimiter at the very end of a text that ends outside
    quotes adds no row when a field or a row is pending there, and a row
    of one empty field when nothing is pending, as after another record
    delimiter. *)
Theorem parseCSV_trailing_delimiter (a d : JSString) :
  inQuote (scan a initial) = false ->
  isRecordDelimiter d = true ->
  seam a d = true ->
  parseCSV (a ++ d)
  = if hasPending (scan a initial) then parseCSV a
    else parseCSV a ++ [ [ [] ] ].
Proof.
  intros Hq Hd Hseam. unfold parseCSV.
  rewrite scan_app by assumption.
  rewrite (scan_delimiter d) by assumption.
  unfold flush at 1. cbn [rows currentRow currentVal truthy length].
  cbn [Nat.ltb Nat.leb orb].
  unfold flush, hasPending.
  destruct (truthy (currentVal (scan a initial))
            || (0 <? length (currentRow (scan a initial)))%nat) eqn:E;
    [reflexivity|].
  apply orb_false_iff in E. destruct E as [Ev Er].
  destruct (currentVal (scan a initial)); [|discriminate Ev].
  destruct (currentRow (scan a initial)); [|discriminate Er].
  reflexivity.
Qed.

Lemma parseCSV_trailing_delimiter_witness :
  parseCSV (lit "1," ++ quoted (lit "a" ++ [LF]) ++ [CR; LF])
  = parseCSV (lit "1," ++ quoted (lit "a" ++ [LF])).
Proof.
  rewrite app_assoc.
  apply (parseCSV_trailing_delimiter
           (lit "1," ++ quoted (lit "a" ++ [LF])) [CR; LF]); reflexivity.
Defined.

Lemma handleOutlineChange_throws_witness :
  handleOutlineChange
    (withOutline [mkPage (Num 1) (lit "A") (lit "B") [] [] []] INITIAL_STATE)
    1 K_title (lit "T")
  = Throw TypeError.
Proof.
  apply (proj2 (handleOutlineChange_throws _ 1 K_title (lit "T"))).
  split; [discriminate | simpl; lia].
Defined.
